(** * Face + voice liveness verification: a shallow embedding

    The Python sources embedded here are
      - [utils.py]  : [Config], [CryptoUtils], [VoiceProcessor],
                      [LipSyncProcessor], [DatabaseManager.log_verification];
      - [verify.py] : [BiometricVerification] (frame analysis, the three
                      stages of the workflow and the two terminal handlers).

    Conventions.  A Python [str] is a [list ascii]; [bytes] is a
    [list byte]; a Python float is a rational ([Q]); an exception raised by
    a library call is [None]; the mutable [BiometricVerification] object is
    a record passed from call to call. *)

From Stdlib Require Import String Ascii Strings.Byte Bool Arith NArith ZArith List.
From Stdlib Require DecimalString.
From Stdlib Require Import QArith Qminmax Qabs Lia Lqa.
Import ListNotations.

Local Open Scope nat_scope.
Local Open Scope list_scope.

(** ** Python strings and bytes *)

Module Py.

Definition str := list ascii.
Definition bytes := list byte.

Definition lit (s : string) : str := list_ascii_of_string s.

(** [s.startswith(p)] *)
Fixpoint startswith (s p : str) {struct p} : bool :=
  match p, s with
  | [], _ => true
  | _ :: _, [] => false
  | c :: p', d :: s' => Ascii.eqb c d && startswith s' p'
  end.

(** [s.ljust(w, c)] and [s.rjust(w, c)], also used on [bytes]. *)
Definition ljust {A} (s : list A) (w : nat) (c : A) : list A :=
  s ++ repeat c (w - length s).

Definition rjust {A} (s : list A) (w : nat) (c : A) : list A :=
  repeat c (w - length s) ++ s.

(** [needle in s] *)
Fixpoint contains (needle s : str) : bool :=
  startswith s needle ||
  match s with
  | [] => false
  | _ :: s' => contains needle s'
  end.

(** [s.lower()] on ASCII letters. *)
Definition lower_char (c : ascii) : ascii :=
  let n := N_of_ascii c in
  if ((65 <=? n) && (n <=? 90))%N then ascii_of_N (n + 32) else c.

Definition lower (s : str) : str := map lower_char s.

(** [s.encode()] for ASCII text. *)
Definition encode (s : str) : bytes := map byte_of_ascii s.

(** [str(n)] for a non-negative integer. *)
Definition str_of_N (n : N) : str :=
  list_ascii_of_string (DecimalString.NilZero.string_of_uint (N.to_uint n)).

(** *** Hexadecimal *)

Definition hexdigit (n : N) : ascii :=
  if (n <? 10)%N then ascii_of_N (48 + n) else ascii_of_N (87 + n).

Definition hexval (c : ascii) : option N :=
  let n := N_of_ascii c in
  if ((48 <=? n) && (n <=? 57))%N then Some (n - 48)%N
  else if ((97 <=? n) && (n <=? 102))%N then Some (n - 87)%N
  else if ((65 <=? n) && (n <=? 70))%N then Some (n - 55)%N
  else None.

Definition is_hex (c : ascii) : bool :=
  match hexval c with Some _ => true | None => false end.

(** A string of hexadecimal digits only. *)
Definition hex_string (s : str) : bool := forallb is_hex s.

(** A Python string written with or without the [0x] prefix. *)
Definition with_prefix (prefixed : bool) (s : str) : str :=
  (if prefixed then lit "0x" else []) ++ s.

(** ASCII whitespace, which [bytes.fromhex] skips between bytes. *)
Definition is_space (c : ascii) : bool :=
  let n := N_of_ascii c in
  ((n =? 32) || ((9 <=? n) && (n <=? 13)))%N.

Definition byte_of_nibbles (h l : N) : byte :=
  match Byte.of_N (16 * h + l) with
  | Some b => b
  | None => x00
  end.

(** [bytes.fromhex(s)]; [None] is [ValueError]. *)
Fixpoint fromhex (s : str) : option bytes :=
  match s with
  | [] => Some []
  | c :: r =>
      if is_space c then fromhex r
      else
        match r with
        | [] => None
        | d :: r' =>
            match hexval c, hexval d with
            | Some h, Some l =>
                match fromhex r' with
                | Some bs => Some (byte_of_nibbles h l :: bs)
                | None => None
                end
            | _, _ => None
            end
        end
  end.

Definition hex_of_byte (b : byte) : str :=
  let n := Byte.to_N b in
  [hexdigit (n / 16); hexdigit (n mod 16)].

(** [hashlib....hexdigest()] : lower-case digits, no prefix. *)
Definition hexdigest (bs : bytes) : str := flat_map hex_of_byte bs.

(** [HexBytes.hex()] : the digits behind a [0x] prefix, which is what
    [test_ethereum_signatures.py] checks ([startswith('0x')] and 132
    characters for a 65-byte signature). *)
Definition hexbytes_hex (bs : bytes) : str := lit "0x" ++ hexdigest bs.

End Py.

Import Py.

(** ** Config *)

Module Config.
Definition HEAD_POSE_THRESHOLD : Q := 15.
Definition BLINK_THRESHOLD : Q := 25 # 100.
Definition SMILE_THRESHOLD : Q := 6 # 10.
Definition SAMPLE_RATE : Z := 16000.
Definition VOICE_SIMILARITY_THRESHOLD : Q := 85 # 100.
Definition LIP_SYNC_THRESHOLD : Q := 3 # 10.
End Config.

(** ** The cryptographic libraries

    [hashlib], [eth_utils.keccak], [eth_account.Account] and
    [cryptography]'s EC keys are used through their interface only.  A
    call that raises returns [None].  The laws are the output sizes the
    libraries document. *)

Class Crypto := {
  account : Type;
  ec_key : Type;
  keccak : bytes -> bytes;
  sha256 : bytes -> bytes;
  md5 : bytes -> bytes;
  (** [Account.from_key(k)] *)
  from_key : str -> option account;
  (** [account.signHash(h).signature] *)
  signHash : account -> bytes -> option bytes;
  (** [account.sign_message(encode_defunct(text=m)).signature] *)
  sign_message : account -> str -> option bytes;
  (** [key.sign(m, ec.ECDSA(hashes.SHA256()))], a DER signature *)
  ec_sign : ec_key -> bytes -> option bytes;
  (** [base64.b64encode(b).decode('utf-8')] *)
  b64encode : bytes -> str;
  keccak_length : forall d, length (keccak d) = 32;
  sha256_length : forall d, length (sha256 d) = 32;
  md5_length : forall d, length (md5 d) = 16;
  signHash_length : forall a h s, signHash a h = Some s -> length s = 65;
  sign_message_length :
    forall a m s, sign_message a m = Some s -> length s = 65;
  ec_sign_nonempty : forall k m s, ec_sign k m = Some s -> s <> [];
  b64encode_nonempty : forall b, b <> [] -> b64encode b <> []
}.

(** ** CryptoUtils *)

Module CryptoUtils.
Section WithCrypto.
Context {C : Crypto}.

(** [generate_hash] *)
Definition generate_hash (data : bytes) : str := hexdigest (sha256 data).

(** The private key argument of [sign_data] is a hex string or a key
    object. *)
Inductive private_key :=
| KeyStr (s : str)
| KeyObj (k : ec_key).

(** [sign_data_simple] *)
Definition sign_data_simple (data wallet_address private_key_hex : str) : str :=
  let message := data ++ lit "." ++ wallet_address in
  let attempt :=
    match from_key private_key_hex with
    | Some acct =>
        match sign_message acct message with
        | Some sig => Some (hexbytes_hex sig)
        | None => None
        end
    | None => None
    end in
  match attempt with
  | Some r => r
  | None => lit "0x" ++ hexdigest (sha256 (encode (data ++ wallet_address)))
  end.

(** The first two steps of [generate_ethereum_signature]: the [0x] prefix
    and the padding of the hash, the [0x] prefix of the address. *)
Definition normalize_hash (biometric_hash : str) : str :=
  let biometric_hash :=
    if negb (startswith biometric_hash (lit "0x"))
    then lit "0x" ++ biometric_hash else biometric_hash in
  if length biometric_hash <? 66
  then ljust biometric_hash 66 "0"%char else biometric_hash.

Definition normalize_address (user_address : str) : str :=
  if negb (startswith user_address (lit "0x"))
  then lit "0x" ++ user_address else user_address.

(** [message_hash] as computed inside the [try] block, from the
    normalized strings. *)
Definition message_hash (biometric_hash user_address : str) : option bytes :=
  match fromhex (rjust (skipn 2 user_address) 40 "0"%char) with
  | None => None
  | Some address_bytes =>
      match fromhex (rjust (skipn 2 biometric_hash) 64 "0"%char) with
      | None => None
      | Some hash_bytes =>
          Some (keccak (rjust address_bytes 32 x00 ++ hash_bytes))
      end
  end.

(** The body of the [try] block; [None] when anything in it raises. *)
Definition ethereum_signature_try
    (biometric_hash user_address backend_private_key : str) : option str :=
  match message_hash biometric_hash user_address with
  | None => None
  | Some mh =>
      match from_key backend_private_key with
      | None => None
      | Some backend_account =>
          match signHash backend_account mh with
          | None => None
          | Some sig => Some (hexbytes_hex sig)
          end
      end
  end.

(** [generate_ethereum_signature] *)
Definition generate_ethereum_signature
    (biometric_hash user_address backend_private_key : str) : str :=
  let biometric_hash := normalize_hash biometric_hash in
  let user_address := normalize_address user_address in
  match ethereum_signature_try biometric_hash user_address
          backend_private_key with
  | Some r => r
  | None => sign_data_simple biometric_hash user_address backend_private_key
  end.

(** [sign_data] *)
Definition sign_data (pk : private_key) (data wallet_address : str) : str :=
  let legacy :=
    lit "legacy_signature_" ++
    hexdigest (md5 (encode (data ++ wallet_address))) in
  match pk with
  | KeyStr s =>
      if startswith s (lit "0x")
      then sign_data_simple data wallet_address s
      else legacy
  | KeyObj k =>
      match ec_sign k (encode (data ++ lit "." ++ wallet_address)) with
      | Some sig => b64encode sig
      | None => legacy
      end
  end.

End WithCrypto.
End CryptoUtils.

(** ** LipSyncProcessor.dtw_alignment *)

Module LipSyncProcessor.

(** A cell of the cost table: a finite number or [np.inf]. *)
Inductive cell :=
| Fin (q : Q)
| Inf.

(** [cost + c] for a finite [cost]. *)
Definition cell_add (cost : Q) (c : cell) : cell :=
  match c with
  | Fin x => Fin (cost + x)
  | Inf => Inf
  end.

Definition cell_min (a b : cell) : cell :=
  match a, b with
  | Fin x, Fin y => Fin (Qmin x y)
  | Fin x, Inf => Fin x
  | Inf, _ => b
  end.

(** [min(a, b, c)] *)
Definition min3 (a b c : cell) : cell := cell_min (cell_min a b) c.

(** The table [dtw_matrix], indexed by row and column.  The loops only
    read and write indices within the (n+1) x (m+1) shape. *)
Definition table := nat -> nat -> cell.

(** [np.full((n + 1, m + 1), np.inf)] *)
Definition full_inf : table := fun _ _ => Inf.

(** [t[i, j] = v] *)
Definition table_set (t : table) (i j : nat) (v : cell) : table :=
  fun a b => if (a =? i) && (b =? j) then v else t a b.

(** The body of the inner loop. *)
Definition dtw_cell (seq1 seq2 : list Q) (i j : nat) (t : table) : table :=
  let cost := Qabs (nth (i - 1) seq1 0%Q - nth (j - 1) seq2 0%Q) in
  table_set t i j
    (cell_add cost (min3 (t (i - 1) j) (t i (j - 1)) (t (i - 1) (j - 1)))).

(** [for j in range(1, m + 1)] over a list of column indices. *)
Definition dtw_row (seq1 seq2 : list Q) (cols : list nat) (i : nat)
    (t : table) : table :=
  fold_left (fun t j => dtw_cell seq1 seq2 i j t) cols t.

(** [for i in range(1, n + 1)] over a list of row indices. *)
Definition dtw_fill (seq1 seq2 : list Q) (rows cols : list nat) (t : table)
  : table :=
  fold_left (fun t i => dtw_row seq1 seq2 cols i t) rows t.

(** [x / k] in floating point: [inf / k] is [inf], and [0.0 / 0] is
    [nan] ([None]); the table never holds a non-zero finite number when
    [k] is 0. *)
Definition cell_div (c : cell) (k : nat) : option cell :=
  match k with
  | O => None
  | S _ =>
      match c with
      | Fin x => Some (Fin (x / inject_Z (Z.of_nat k)))
      | Inf => Some Inf
      end
  end.

Definition dtw_alignment (seq1 seq2 : list Q) : option cell :=
  let n := length seq1 in
  let m := length seq2 in
  let dtw_matrix := table_set full_inf 0 0 (Fin 0) in
  let dtw_matrix := dtw_fill seq1 seq2 (seq 1 n) (seq 1 m) dtw_matrix in
  cell_div (dtw_matrix n m) (n + m).

(** A cell that is not negative, and a cell that is zero. *)
Definition nonneg_cell (c : cell) : Prop :=
  match c with
  | Fin q => (0 <= q)%Q
  | Inf => True
  end.

Definition zero_cell (c : cell) : Prop :=
  match c with
  | Fin q => (q == 0)%Q
  | Inf => False
  end.

Definition nonneg (t : table) : Prop := forall a b, nonneg_cell (t a b).

End LipSyncProcessor.

(** ** Floating-point comparisons *)

Definition Qltb (a b : Q) : bool := negb (Qle_bool b a).
Definition Qgtb (a b : Q) : bool := Qltb b a.

(** ** The signal-processing libraries

    MFCC extraction ([librosa]) and the chain
    [compute_lip_movement] / [compute_audio_energy] / [compute_correlation]
    ([numpy], [scipy]) are used through their results; [None] is a raised
    exception. *)

Class Signals := {
  (** [VoiceProcessor.extract_mfcc(audio_data).tobytes()] *)
  extract_mfcc : list Q -> option bytes;
  (** [compute_correlation(compute_audio_energy(audio_data),
                           compute_lip_movement(lip_sequence))] *)
  lip_audio_correlation : list (list Q) -> list Q -> option Q
}.

(** ** BiometricVerification *)

Module Verify.
Import CryptoUtils.

(** [self.verification_results] *)
Record results := mkResults {
  face_liveness : bool;
  voice_match : bool;
  lip_sync : bool;
  overall_result : bool
}.

(** A row of the table [verification_logs]. *)
Record log_entry := mkLog {
  log_user_id : str;
  log_face_liveness : bool;
  log_voice_match : bool;
  log_lip_sync : bool;
  log_overall_result : bool;
  log_hash_value : str;
  log_signature : str
}.

(** What the landmark geometry of one video frame yields: the eye aspect
    ratio of each eye, the mouth width/height ratio, the head pose angles
    and the flattened lip landmarks. *)
Record frame := mkFrame {
  left_ear : Q;
  right_ear : Q;
  smile_ratio : Q;
  yaw : Q;
  pitch : Q;
  lip_features : list Q
}.

(** The messages of the workflow ([update_instruction] and [print]), in
    the order they are issued. *)
Inductive message :=
| StageFace                       (* "Stage 1: Face Liveness Challenge" *)
| StageVoice                      (* "Stage 2: Voice Challenge" *)
| StageFinal                      (* "Stage 3: Processing results..." *)
| LipSyncCorrelation (c : Q)      (* "Lip-sync correlation: ..." *)
| InsufficientLipData             (* "Insufficient lip movement data" *)
| Completed                       (* "Verification completed successfully!" *)
| Failed (reason : str).          (* "Verification failed: ..." *)

(** The five challenges of [_perform_face_liveness_challenge]. *)
Inductive challenge_type := blink | smile | head_left | head_right | head_up.

Definition challenge_text (c : challenge_type) : str :=
  match c with
  | blink => lit "Please blink twice"
  | smile => lit "Please smile"
  | head_left => lit "Please turn your head left"
  | head_right => lit "Please turn your head right"
  | head_up => lit "Please tilt your head up"
  end.

Definition is_blink (c : challenge_type) : bool :=
  match c with blink => true | _ => false end.

(** The mutable fields of the object. *)
Record state := mkState {
  is_verifying : bool;
  verification_results : results;
  current_challenge : option str;
  blink_count : nat;
  last_blink_time : Q;
  lip_sequence : list (list Q);
  audio_buffer : list Q;
  db : list log_entry;
  console : list message
}.

Definition set_is_verifying (b : bool) (s : state) : state :=
  mkState b (verification_results s) (current_challenge s) (blink_count s)
    (last_blink_time s) (lip_sequence s) (audio_buffer s) (db s) (console s).

Definition set_results (r : results) (s : state) : state :=
  mkState (is_verifying s) r (current_challenge s) (blink_count s)
    (last_blink_time s) (lip_sequence s) (audio_buffer s) (db s) (console s).

Definition set_current_challenge (c : option str) (s : state) : state :=
  mkState (is_verifying s) (verification_results s) c (blink_count s)
    (last_blink_time s) (lip_sequence s) (audio_buffer s) (db s) (console s).

Definition set_blink (n : nat) (t : Q) (s : state) : state :=
  mkState (is_verifying s) (verification_results s) (current_challenge s) n
    t (lip_sequence s) (audio_buffer s) (db s) (console s).

Definition set_lip_sequence (l : list (list Q)) (s : state) : state :=
  mkState (is_verifying s) (verification_results s) (current_challenge s)
    (blink_count s) (last_blink_time s) l (audio_buffer s) (db s) (console s).

Definition set_audio_buffer (a : list Q) (s : state) : state :=
  mkState (is_verifying s) (verification_results s) (current_challenge s)
    (blink_count s) (last_blink_time s) (lip_sequence s) a (db s) (console s).

Definition set_db (d : list log_entry) (s : state) : state :=
  mkState (is_verifying s) (verification_results s) (current_challenge s)
    (blink_count s) (last_blink_time s) (lip_sequence s) (audio_buffer s) d
    (console s).

(** [print] / [update_instruction] *)
Definition say (m : message) (s : state) : state :=
  mkState (is_verifying s) (verification_results s) (current_challenge s)
    (blink_count s) (last_blink_time s) (lip_sequence s) (audio_buffer s)
    (db s) (console s ++ [m]).

Definition set_face_liveness (b : bool) (s : state) : state :=
  let r := verification_results s in
  set_results (mkResults b (voice_match r) (lip_sync r) (overall_result r)) s.

Definition set_voice_match (b : bool) (s : state) : state :=
  let r := verification_results s in
  set_results
    (mkResults (face_liveness r) b (lip_sync r) (overall_result r)) s.

Definition set_lip_sync (b : bool) (s : state) : state :=
  let r := verification_results s in
  set_results
    (mkResults (face_liveness r) (voice_match r) b (overall_result r)) s.

Definition set_overall_result (b : bool) (s : state) : state :=
  let r := verification_results s in
  set_results
    (mkResults (face_liveness r) (voice_match r) (lip_sync r) b) s.

(** The fields set by [__init__]: the user, the wallet and, from
    [start_verification_gui], [user_data['private_key']]. *)
Record session {C : Crypto} := mkSession {
  user_id : str;
  wallet_address : str;
  user_private_key : private_key
}.

(** [__init__] *)
Definition init : state :=
  mkState false (mkResults false false false false) None 0 0%Q [] [] [] [].

(** *** FaceProcessor, on the ratios of a frame *)

Definition detect_blink (f : frame) : bool :=
  let ear := ((left_ear f + right_ear f) / 2)%Q in
  Qltb ear Config.BLINK_THRESHOLD.

Definition detect_smile (f : frame) : bool :=
  Qgtb (smile_ratio f) Config.SMILE_THRESHOLD.

(** *** [_analyze_frame], at clock reading [current_time] *)

Definition truthy (c : option str) : option str :=
  match c with
  | Some ((_ :: _) as s) => Some s
  | _ => None
  end.

Definition analyze_liveness (current_time : Q) (f : frame) (s : state)
  : state :=
  match truthy (current_challenge s) with
  | None => s
  | Some ch =>
      if contains (lit "blink") (lower ch) then
        if detect_blink f then
          if Qgtb (current_time - last_blink_time s) (5 # 10)
          then set_blink (blink_count s + 1) current_time s
          else s
        else s
      else if contains (lit "smile") (lower ch) then
        if detect_smile f then set_face_liveness true s else s
      else if contains (lit "turn") (lower ch)
              || contains (lit "head") (lower ch) then
        if Qgtb (Qabs (yaw f)) Config.HEAD_POSE_THRESHOLD
           || Qgtb (Qabs (pitch f)) Config.HEAD_POSE_THRESHOLD
        then set_face_liveness true s else s
      else s
  end.

Definition _analyze_frame (current_time : Q) (f : frame) (s : state)
  : state :=
  let s := analyze_liveness current_time f s in
  if 0 <? length (audio_buffer s)
  then set_lip_sequence (lip_sequence s ++ [lip_features f]) s
  else s.

(** The part of [update_video_feed] that touches the state. *)
Definition update_video_feed (current_time : Q) (f : frame) (s : state)
  : state :=
  if is_verifying s then _analyze_frame current_time f s else s.

(** [reset_verification_state] *)
Definition reset_verification_state (s : state) : state :=
  mkState (is_verifying s) (mkResults false false false false) None 0
    (last_blink_time s) [] [] (db s) (console s).

(** [DatabaseManager.log_verification]; the insertion is taken to
    succeed. *)
Definition log_verification (e : log_entry) (s : state) : state :=
  set_db (db s ++ [e]) s.

(** *** Stage 1

    The video thread and the polling thread interleave: an event is a
    frame handled by [update_video_feed] or one evaluation of the [while]
    condition, each with the clock reading at that moment. *)
Inductive event :=
| Video (t : Q) (f : frame)
| Poll (t : Q).

Definition timeout : Q := 8.

(** The [while] loop; [None] when the events end while it still runs. *)
Fixpoint face_poll (challenge : challenge_type) (start_time : Q)
    (evs : list event) (s : state) : option (state * list event) :=
  match evs with
  | [] => None
  | Video t f :: evs' =>
      face_poll challenge start_time evs' (update_video_feed t f s)
  | Poll t :: evs' =>
      if Qltb (t - start_time) timeout then
        if is_blink challenge && (2 <=? blink_count s)
        then Some (set_face_liveness true s, evs')
        else if negb (is_blink challenge)
                && face_liveness (verification_results s)
        then Some (s, evs')
        else face_poll challenge start_time evs' s
      else Some (s, evs')
  end.

Definition _perform_face_liveness_challenge (challenge : challenge_type)
    (start_time : Q) (evs : list event) (s : state)
  : option (state * bool * list event) :=
  let s := set_current_challenge (Some (challenge_text challenge)) s in
  let s := set_blink 0 (last_blink_time s) s in
  let s := set_face_liveness false s in
  match face_poll challenge start_time evs s with
  | None => None
  | Some (s, rest) =>
      let s := set_current_challenge None s in
      Some (s, face_liveness (verification_results s), rest)
  end.

(** The view of the object that blink counting needs. *)
Definition counting (n : nat) (last : Q) (s : state) : Prop :=
  is_verifying s = true
  /\ current_challenge s = Some (challenge_text blink)
  /\ blink_count s = n /\ last_blink_time s = last.

Section Stages.
Context {C : Crypto} {S : Signals}.

(** *** Stage 2 *)

(** [_analyze_lip_sync] *)
Definition _analyze_lip_sync (audio_data : list Q) (s : state)
  : state * bool :=
  if length (lip_sequence s) <? 2 then (s, false)
  else
    match lip_audio_correlation (lip_sequence s) audio_data with
    | Some correlation =>
        (say (LipSyncCorrelation correlation) s,
         Qgtb (Qabs correlation) Config.LIP_SYNC_THRESHOLD)
    | None => (s, false)
    end.

(** "Extract voice features": [voice_similarity] is the value drawn by
    [random.uniform(0.8, 0.95)]; [None] when the extraction raises. *)
Definition voice_matching (audio_data : list Q) (voice_similarity : Q)
    (s : state) : option state :=
  if 0 <? length audio_data then
    match extract_mfcc audio_data with
    | None => None
    | Some _ =>
        let voice_match :=
          Qgtb voice_similarity Config.VOICE_SIMILARITY_THRESHOLD in
        Some (set_voice_match voice_match s)
    end
  else Some s.

(** "Analyze lip-sync" *)
Definition lip_sync_analysis (audio_data : list Q) (s : state) : state :=
  if 10 <? length (lip_sequence s) then
    let '(s, lip_sync_result) := _analyze_lip_sync audio_data s in
    set_lip_sync lip_sync_result s
  else set_lip_sync false (say InsufficientLipData s).

(** The [try] block after the recording: [recording] is the normalized
    [audio_data], [None] when recording raises. *)
Definition voice_analysis (recording : option (list Q))
    (voice_similarity : Q) (s : state) : state * bool :=
  match recording with
  | None => (s, false)
  | Some audio_data =>
      match voice_matching audio_data voice_similarity s with
      | None => (s, false)
      | Some s =>
          let s := lip_sync_analysis audio_data s in
          (s, voice_match (verification_results s)
              && lip_sync (verification_results s))
      end
  end.

(** [_perform_voice_challenge]: the buffers are reset, the video thread
    handles [frames] while the recording runs, then the analysis. *)
Definition _perform_voice_challenge (frames : list (Q * frame))
    (recording : option (list Q)) (voice_similarity : Q) (s : state)
  : state * bool :=
  let s := set_audio_buffer [] s in
  let s := set_lip_sequence [] s in
  let s := fold_left (fun s tf => update_video_feed (fst tf) (snd tf) s)
             frames s in
  voice_analysis recording voice_similarity s.

(** *** Stage 3 *)

(** What [_perform_final_verification] reads from outside the object. *)
Record final_env := mkEnv {
  timestamp : N;                        (* int(time.time()) *)
  getenv_key : option str;              (* os.getenv('BACKEND_PRIVATE_KEY') *)
  created_key : option str;             (* create_backend_private_key() *)
  contract_result : bool                (* send_to_smart_contract(...) *)
}.

Definition repr_bool (b : bool) : str :=
  if b then lit "True" else lit "False".

Definition repr_results (r : results) : str :=
  lit "{'face_liveness': " ++ repr_bool (face_liveness r) ++
  lit ", 'voice_match': " ++ repr_bool (voice_match r) ++
  lit ", 'lip_sync': " ++ repr_bool (lip_sync r) ++
  lit ", 'overall_result': " ++ repr_bool (overall_result r) ++ lit "}".

Definition verification_data (sess : session) (env : final_env)
    (r : results) : str :=
  lit "user:" ++ user_id sess ++ lit ",timestamp:" ++
  str_of_N (timestamp env) ++ lit ",results:" ++ repr_results r.

(** The backend key of the inner [try] block; [None] when creating the
    demo key raises. *)
Definition backend_private_key (env : final_env) : option str :=
  match truthy (getenv_key env) with
  | Some k => Some k
  | None => created_key env
  end.

(** The hash and the signature that are logged. *)
Definition attestation (sess : session) (env : final_env) (r : results)
  : str * str :=
  let data := encode (verification_data sess env r) in
  let biometric_hash := generate_hash data in
  match backend_private_key env with
  | Some key =>
      (biometric_hash,
       generate_ethereum_signature biometric_hash (wallet_address sess) key)
  | None =>
      let verification_hash := generate_hash data in
      (verification_hash,
       sign_data (user_private_key sess) verification_hash
         (wallet_address sess))
  end.

(** [_perform_final_verification] *)
Definition _perform_final_verification (sess : session) (env : final_env)
    (s : state) : state * bool :=
  let r := verification_results s in
  let all_passed := face_liveness r && voice_match r && lip_sync r in
  if all_passed then
    let '(verification_hash, signature) := attestation sess env r in
    let s :=
      log_verification
        (mkLog (user_id sess) (face_liveness r) (voice_match r) (lip_sync r)
           all_passed verification_hash signature) s in
    let s := set_overall_result true s in
    (s, true)
  else (s, false).

(** [_verification_successful] *)
Definition _verification_successful (s : state) : state := say Completed s.

(** [_verification_failed] *)
Definition _verification_failed (sess : session) (reason : str) (s : state)
  : state :=
  let r := verification_results s in
  let s := say (Failed reason) s in
  log_verification
    (mkLog (user_id sess) (face_liveness r) (voice_match r) (lip_sync r)
       false [] []) s.

(** *** The workflow *)

Record inputs := mkInputs {
  challenge : challenge_type;           (* random.choice(challenge_types) *)
  start_time : Q;                       (* time.time() before the loop *)
  face_events : list event;
  voice_frames : list (Q * frame);
  recording : option (list Q);
  voice_similarity : Q;                 (* random.uniform(0.8, 0.95) *)
  env : final_env
}.

(** "Stage 3" of [_verification_workflow]. *)
Definition final_stage (sess : session) (env : final_env) (s : state)
  : state :=
  let s := say StageFinal s in
  let '(s, ok) := _perform_final_verification sess env s in
  if ok then _verification_successful s
  else _verification_failed sess (lit "Final verification failed") s.

(** [_verification_workflow]; [None] when the events end while stage 1
    is still polling. *)
Definition _verification_workflow (sess : session) (i : inputs) (s : state)
  : option state :=
  let s := say StageFace s in
  match _perform_face_liveness_challenge (challenge i) (start_time i)
          (face_events i) s with
  | None => None
  | Some (s, ok, _) =>
      let s :=
        if negb ok
        then _verification_failed sess
               (lit "Face liveness challenge failed") s
        else
          let s := say StageVoice s in
          let '(s, ok) :=
            _perform_voice_challenge (voice_frames i) (recording i)
              (voice_similarity i) s in
          if negb ok
          then _verification_failed sess (lit "Voice challenge failed") s
          else final_stage sess (env i) s in
      Some (set_is_verifying false s)
  end.

(** [start_verification_process] *)
Definition start_verification_process (sess : session) (i : inputs)
    (s : state) : option state :=
  if is_verifying s then Some s
  else
    let s := set_is_verifying true s in
    let s := reset_verification_state s in
    _verification_workflow sess i s.

(** An entry carries an attestation when its hash and its signature are
    not the empty string. *)
Definition attested (e : log_entry) : Prop :=
  log_hash_value e <> [] /\ log_signature e <> [].

(** An entry records a failed stage. *)
Definition stage_failed (e : log_entry) : Prop :=
  log_face_liveness e = false \/ log_voice_match e = false
  \/ log_lip_sync e = false.

(** [all_passed] *)
Definition passed (r : results) : bool :=
  face_liveness r && voice_match r && lip_sync r.

(** What the specification asks of a persisted entry: an attestation
    exactly when the verdict is Pass, and nothing but a failed verdict with
    empty strings when a stage failed. *)
Definition sound_entry (e : log_entry) : Prop :=
  (log_overall_result e = true <-> attested e)
  /\ (stage_failed e ->
      log_overall_result e = false
      /\ log_hash_value e = [] /\ log_signature e = []).

End Stages.
End Verify.

(** The format check of [test_ethereum_signatures.py]:
    [sig.startswith('0x') and len(sig) == 132]. *)
Definition is_ethereum_format (sig : str) : bool :=
  startswith sig (lit "0x") && (length sig =? 132).

(** ** The verifier's hash, as the source documents it

    The comment of [generate_ethereum_signature] (utils.py:97-98) and the
    scripts printed by test_ethereum_signatures.py (lines 55-58 and
    154-157) give the hash that the verifier computes:
    [solidityKeccak256(["address", "bytes32"], [userAddress, faceHash])].
    That function of ethers hashes the tightly packed encoding of its
    arguments: an [address] takes its 20 bytes and a [bytes32] its 32
    bytes, with no padding between them. *)

Definition solidity_packed (wallet digest : bytes) : bytes :=
  wallet ++ digest.

Definition solidityKeccak256 {C : Crypto} (wallet digest : bytes) : bytes :=
  keccak (solidity_packed wallet digest).

(** The buffer that [generate_ethereum_signature] hashes for a decoded
    address and hash. *)
Definition padded_buffer (address_bytes hash_bytes : bytes) : bytes :=
  rjust address_bytes 32 x00 ++ hash_bytes.

(** ** Reference instances of the library interfaces

    Small executable stand-ins with the documented output sizes; they show
    that the laws of [Crypto] can be met and let the functions be run on
    concrete inputs. *)

Module Reference.

(** A digest stand-in: the input cut or zero-extended to [n] bytes. *)
Definition fit (n : nat) (d : bytes) : bytes :=
  firstn n d ++ repeat x00 (n - length (firstn n d)).

(** Keys load when they decode to 32 bytes. *)
Definition load_key (k : str) : option bytes :=
  let k := if startswith k (lit "0x") then skipn 2 k else k in
  match fromhex k with
  | Some b => if length b =? 32 then Some b else None
  | None => None
  end.

Lemma fit_length (n : nat) (d : bytes) : length (fit n d) = n.
Proof.
  unfold fit. rewrite length_app, repeat_length, length_firstn. lia.
Qed.

Lemma fit_nonempty (n : nat) (d : bytes) : fit (S n) d <> [].
Proof.
  intros H. apply (f_equal (@length byte)) in H.
  rewrite fit_length in H. discriminate.
Qed.

(** The stand-in for [b64encode] writes the bytes in hexadecimal. *)
#[export] Instance crypto : Crypto.
Proof.
  refine {|
    account := bytes;
    ec_key := bytes;
    keccak := fit 32;
    sha256 := fit 32;
    md5 := fit 16;
    from_key := load_key;
    signHash := fun a h => Some (fit 65 (a ++ h));
    sign_message := fun a m => Some (fit 65 (a ++ encode m));
    ec_sign := fun k m => Some (fit 64 (k ++ m));
    b64encode := hexdigest
  |}.
  - intros d. apply fit_length.
  - intros d. apply fit_length.
  - intros d. apply fit_length.
  - intros a h s [= <-]. apply fit_length.
  - intros a m s [= <-]. apply fit_length.
  - intros k m s [= <-]. apply fit_nonempty.
  - intros [|b bs] H; [congruence|]. discriminate.
Defined.

(** Sample data of [test_ethereum_signatures.py]. *)
Definition unhex (s : string) : bytes :=
  match fromhex (lit s) with
  | Some b => b
  | None => []
  end.

Definition example_wallet : bytes :=
  unhex "1234567890123456789012345678901234567890".

Definition example_digest : bytes :=
  unhex "a1b2c3d4e5f67890abcdef1234567890abcdef1234567890abcdef1234567890".

Definition example_key : str :=
  lit "0x47e179ec197488593b187f80a00eb0da91f1b9d0b13f8733639f19c30a34926a".

(** The second address of the test's samples; it holds an ['H']. *)
Definition example_bad_address : str :=
  lit "0x8ba1f109551bD432803012645Hac136c32960E8F".

(** MFCC extraction keeps nothing; the correlation is always total. *)
#[export] Instance signals (c : Q) : Signals :=
  {| extract_mfcc := fun _ => Some [];
     lip_audio_correlation := fun _ _ => Some c |}.

End Reference.

(** ** Sample sessions *)

Module Samples.
Import CryptoUtils Verify.

Definition example_account : bytes :=
  Reference.unhex
    "47e179ec197488593b187f80a00eb0da91f1b9d0b13f8733639f19c30a34926a".

Definition alice : session (C := Reference.crypto) :=
  @mkSession Reference.crypto (lit "alice")
    (hexbytes_hex Reference.example_wallet)
    (KeyStr Reference.example_key).

Definition backend : final_env :=
  mkEnv 1700000000 (Some Reference.example_key) None true.

(** Both eyes closed; a wide smile; a neutral face. *)
Definition closed_eyes : frame := mkFrame (1 # 10) (1 # 10) (5 # 10) 0 0 [].
Definition smiling : frame := mkFrame (3 # 10) (3 # 10) 2 0 0 [].
Definition neutral : frame := mkFrame (3 # 10) (3 # 10) (5 # 10) 0 0 [].

(** The object once [start_verification_process] has set the flag. *)
Definition started : state := set_is_verifying true init.

Definition all_passed : state :=
  set_results (mkResults true true true false) started.

Definition with_lip_frames (n : nat) : state :=
  set_lip_sequence (repeat [0%Q] n) started.

(** A smile challenge that nobody answers: the polls run to the
    deadline. *)
Definition unanswered : inputs :=
  mkInputs smile 0 [Poll 0; Video 1 neutral; Poll 4; Poll 8] []
    (Some [1%Q]) (9 # 10) backend.

(** A smile challenge answered at once, then a recording. *)
Definition answered : inputs :=
  mkInputs smile 0 [Video (1 # 10) smiling; Poll (2 # 10)]
    [(5%Q, neutral); (6%Q, neutral)] (Some [1%Q]) (9 # 10) backend.

End Samples.

(** ** What answers a face challenge *)

Module Liveness.
Import Verify.

(** The test of the head branch of [_analyze_frame]. *)
Definition head_moved (f : frame) : bool :=
  Qgtb (Qabs (yaw f)) Config.HEAD_POSE_THRESHOLD
  || Qgtb (Qabs (pitch f)) Config.HEAD_POSE_THRESHOLD.

(** The detector that [_analyze_frame] runs for each challenge text. *)
Definition answers (c : challenge_type) (f : frame) : bool :=
  match c with
  | blink => detect_blink f
  | smile => detect_smile f
  | head_left | head_right | head_up => head_moved f
  end.





Definition is_late_poll (start : Q) (e : event) : bool :=
  match e with
  | Poll t => negb (Qltb (t - start) timeout)
  | Video _ _ => false
  end.

End Liveness.

(** ** Reading the DTW table *)

Module Dtw.
Import LipSyncProcessor.

(** The table that [dtw_alignment] has filled when it returns. *)
Definition dtw_table (seq1 seq2 : list Q) : table :=
  dtw_fill seq1 seq2 (seq 1 (length seq1)) (seq 1 (length seq2))
    (table_set full_inf 0 0 (Fin 0)).

(** [abs(seq1[i-1] - seq2[j-1])] *)
Definition step_cost (seq1 seq2 : list Q) (i j : nat) : Q :=
  Qabs (nth (i - 1) seq1 0%Q - nth (j - 1) seq2 0%Q).

(** A cell that holds a number. *)
Definition finite (c : cell) : Prop :=
  match c with
  | Fin _ => True
  | Inf => False
  end.

(** Equal cells, as numbers. *)
Definition cell_eq (a b : cell) : Prop :=
  match a, b with
  | Fin x, Fin y => (x == y)%Q
  | Inf, Inf => True
  | _, _ => False
  end.

(** Equal results: both [nan], or equal cells. *)
Definition result_eq (a b : option cell) : Prop :=
  match a, b with
  | Some x, Some y => cell_eq x y
  | None, None => True
  | _, _ => False
  end.

End Dtw.

(** ** blockchain_integration.py: [_make_request] *)

Module Blockchain.

(** [s.upper()] on ASCII letters. *)
Definition upper_char (c : ascii) : ascii :=
  let n := N_of_ascii c in
  if ((97 <=? n) && (n <=? 122))%N then ascii_of_N (n - 32) else c.

Definition upper (s : str) : str := map upper_char s.

Definition str_eqb (a b : str) : bool :=
  if list_eq_dec ascii_dec a b then true else false.

(** What one attempt meets: a reply with a JSON body, or one of the
    exceptions the loop tells apart. *)
Inductive outcome (R : Type) :=
| Replied (r : R)
| Timeout
| ConnectionError
| HTTPError (status_code : nat)
| OtherError.

Arguments Replied {R} r.
Arguments Timeout {R}.
Arguments ConnectionError {R}.
Arguments HTTPError {R} status_code.
Arguments OtherError {R}.

(** What the loop does to the outside: a request, or [time.sleep]. *)
Inductive effect :=
| Request (attempt : nat)
| Sleep (seconds : nat).

(** [if attempt < max_retries - 1: time.sleep(2 ** attempt)] *)
Definition backoff (max_retries attempt : nat) : list effect :=
  if attempt <? max_retries - 1 then [Sleep (2 ^ attempt)] else [].

(** [for attempt in range(max_retries)], from [attempt] on, with [todo]
    iterations left; [server attempt] is what that attempt meets. *)
Fixpoint attempts {R} (max_retries : nat) (server : nat -> outcome R)
    (todo attempt : nat) : option R * list effect :=
  match todo with
  | O => (None, [])
  | S todo' =>
      let again :=
        let '(r, effects) :=
          attempts max_retries server todo' (S attempt) in
        (r, Request attempt :: backoff max_retries attempt ++ effects) in
      match server attempt with
      | Replied r => (Some r, [Request attempt])
      | Timeout | ConnectionError => again
      | HTTPError status_code =>
          if 500 <=? status_code then
            if attempt <? max_retries - 1 then again
            else (None, [Request attempt])
          else (None, [Request attempt])
      | OtherError => (None, [Request attempt])
      end
  end.

(** [_make_request]: a method other than POST and GET raises inside the
    [try], which ends the loop before any request. *)
Definition _make_request {R} (max_retries : nat) (method : str)
    (server : nat -> outcome R) : option R * list effect :=
  if str_eqb (upper method) (lit "POST")
     || str_eqb (upper method) (lit "GET")
  then attempts max_retries server max_retries 0
  else (None, []).

Definition supported (method : str) : bool :=
  str_eqb (upper method) (lit "POST") || str_eqb (upper method) (lit "GET").

(** The outcomes after which the loop tries again. *)
Definition retryable {R} (o : outcome R) : bool :=
  match o with
  | Timeout | ConnectionError => true
  | HTTPError status_code => 500 <=? status_code
  | Replied _ | OtherError => false
  end.

(** The requests and the waits of [n] attempts from [attempt] on. *)
Fixpoint schedule (n attempt : nat) : list effect :=
  match n with
  | O => []
  | S O => [Request attempt]
  | S n' => Request attempt :: Sleep (2 ^ attempt) :: schedule n' (S attempt)
  end.

Definition slept (effects : list effect) : nat :=
  fold_right (fun e acc => match e with Sleep k => k + acc | _ => acc end)
    0 effects.

End Blockchain.

(** ** enroll.py: [_capture_face_templates] *)

Module Enroll.

(** What an iteration finds: the camera closed, no frame read, or a frame
    with or without a face embedding. *)
Inductive camera :=
| Closed
| NoFrame
| Shot (embedding : option (list Q)).

(** [for i in range(samples_needed)], from [i] on, with [todo] iterations
    left.  The assignment [i -= 1] in the body is overwritten by the next
    value of the range, so it is not an effect. *)
Fixpoint capture_loop (cam : nat -> camera) (todo i : nat)
    (face_samples : list (list Q)) : bool * list (list Q) :=
  match todo with
  | O => (3 <=? length face_samples, face_samples)
  | S todo' =>
      match cam i with
      | Closed => (false, face_samples)
      | NoFrame => capture_loop cam todo' (S i) face_samples
      | Shot (Some embedding) =>
          capture_loop cam todo' (S i) (face_samples ++ [embedding])
      | Shot None => capture_loop cam todo' (S i) face_samples
      end
  end.

Definition _capture_face_templates (cam : nat -> camera)
  : bool * list (list Q) :=
  capture_loop cam 5 0 [].

(** The iterations [i], ..., [i + todo - 1] that find a face. *)
Definition faces_found (cam : nat -> camera) (i todo : nat) : nat :=
  length
    (filter (fun k => match cam k with Shot (Some _) => true | _ => false end)
       (seq i todo)).

Definition has_face (c : camera) : bool :=
  match c with
  | Shot (Some _) => true
  | _ => false
  end.

Definition is_closed (c : camera) : bool :=
  match c with
  | Closed => true
  | _ => false
  end.

End Enroll.

(** ** verify.py: [calculate_text_similarity] *)

Module Speech.

(** [str.isspace] on ASCII characters. *)
Definition is_str_space (c : ascii) : bool :=
  let n := N_of_ascii c in
  ((n =? 32) || ((9 <=? n) && (n <=? 13)) || ((28 <=? n) && (n <=? 31)))%N.

(** [s.split()]: the maximal runs of characters that are not whitespace;
    [word] is the current run, last character first. *)
Fixpoint split_from (word s : str) : list str :=
  match s with
  | [] =>
      match word with
      | [] => []
      | _ :: _ => [rev word]
      end
  | c :: r =>
      if is_str_space c then
        match word with
        | [] => split_from [] r
        | _ :: _ => rev word :: split_from [] r
        end
      else split_from (c :: word) r
  end.

Definition split (s : str) : list str := split_from [] s.

Definition word_eq_dec : forall a b : str, {a = b} + {a <> b} :=
  list_eq_dec ascii_dec.

(** [set(words)]: a list without repetition; only its length and its
    members are used. *)
Definition set_of (words : list str) : list str := nodup word_eq_dec words.

Definition mem (w : str) (l : list str) : bool :=
  if in_dec word_eq_dec w l then true else false.

Definition intersection (a b : list str) : list str :=
  filter (fun w => mem w b) a.

Definition union (a b : list str) : list str :=
  a ++ filter (fun w => negb (mem w a)) b.

Definition ratio (a b : nat) : Q :=
  (inject_Z (Z.of_nat a) / inject_Z (Z.of_nat b))%Q.

Definition calculate_text_similarity (expected recognized : str) : Q :=
  match expected, recognized with
  | [], _ => 0
  | _, [] => 0
  | _ :: _, _ :: _ =>
      let expected_words := set_of (split (lower expected)) in
      let recognized_words := set_of (split (lower recognized)) in
      match expected_words with
      | [] => 0
      | _ :: _ =>
          let intersection := intersection expected_words recognized_words in
          let union := union expected_words recognized_words in
          match union with
          | [] => 0
          | _ :: _ => ratio (length intersection) (length union)
          end
      end
  end.

(** The set of words of a text, as the function computes it. *)
Definition words (s : str) : list str := set_of (split (lower s)).

End Speech.

(** ** utils.py: the table [users] of [DatabaseManager] *)

Module Database.
Import CryptoUtils.

(** A row of [users]: the two hashes and the two keys as PEM text. *)
Record user_row := mkUser {
  face_hash : str;
  voice_hash : str;
  private_pem : str;
  public_pem : str
}.

(** The table, keyed by [user_id] (PRIMARY KEY). *)
Definition users := list (str * user_row).

Definition same_user (a b : str) : bool :=
  if list_eq_dec ascii_dec a b then true else false.

(** [INSERT OR REPLACE INTO users ...]: a row with the same key is
    deleted, then the new row is inserted. *)
Definition insert_or_replace (user_id : str) (row : user_row) (t : users)
  : users :=
  filter (fun kv => negb (same_user (fst kv) user_id)) t ++ [(user_id, row)].

(** [SELECT ... FROM users WHERE user_id = ?] and [fetchone()]. *)
Definition fetchone (user_id : str) (t : users) : option user_row :=
  match find (fun kv => same_user (fst kv) user_id) t with
  | Some kv => Some (snd kv)
  | None => None
  end.

Section Keys.
Context {C : Crypto}.

(** The key objects of the [cryptography] library with their PEM
    serialization and loading; loading text that is no PEM key raises. *)
Variables private_key_t public_key_t : Type.
Variable private_bytes : private_key_t -> str.
Variable public_bytes : public_key_t -> str.
Variable load_pem_private_key : str -> option private_key_t.
Variable load_pem_public_key : str -> option public_key_t.

(** The dict returned by [get_user_data]. *)
Record user_data := mkData {
  data_face_hash : str;
  data_voice_hash : str;
  data_private_key : private_key_t;
  data_public_key : public_key_t
}.

(** [save_user_template]: [face_embedding] and [voice_embedding] are the
    bytes of the two templates ([tobytes()]).  Returns the table and the
    two hashes. *)
Definition save_user_template (user_id : str)
    (face_embedding voice_embedding : bytes)
    (private_key : private_key_t) (public_key : public_key_t)
    (t : users) : users * (str * str) :=
  let face_hash := generate_hash face_embedding in
  let voice_hash := generate_hash voice_embedding in
  let private_pem := private_bytes private_key in
  let public_pem := public_bytes public_key in
  (insert_or_replace user_id
     (mkUser face_hash voice_hash private_pem public_pem) t,
   (face_hash, voice_hash)).

(** [get_user_data]: the outer [None] is an exception of the key loading,
    [Some None] is the returned [None] of a user without a row. *)
Definition get_user_data (user_id : str) (t : users)
  : option (option user_data) :=
  match fetchone user_id t with
  | Some result =>
      match load_pem_private_key (private_pem result) with
      | None => None
      | Some private_key =>
          match load_pem_public_key (public_pem result) with
          | None => None
          | Some public_key =>
              Some (Some (mkData (face_hash result) (voice_hash result)
                            private_key public_key))
          end
      end
  | None => Some None
  end.

End Keys.

Arguments mkData {private_key_t public_key_t}.
Arguments save_user_template {C private_key_t public_key_t}.
Arguments get_user_data {private_key_t public_key_t}.

End Database.

(** ** Further sample data *)

Module MoreSamples.
Import Blockchain Enroll.

(** The face hash of the first sample of test_ethereum_signatures.py
    (line 21), without its [0x]: 68 digits, two bytes more than a
    bytes32. *)
Definition test_face_hash : str :=
  lit "beef1234567890123456789012345678901234567890123456789012345678901234".

(** A server that times out, answers 503, then replies. *)
Definition flaky (k : nat) : outcome nat :=
  match k with
  | 0 => Timeout
  | 1 => HTTPError 503
  | _ => Replied 7
  end.

(** A camera that shows a face at every second shot. *)
Definition every_second_shot (k : nat) : camera :=
  if Nat.even k then Shot (Some [1%Q]) else Shot None.

End MoreSamples.

(** * Properties *)

(** ** Strings and hexadecimal *)

Lemma length_ljust {A} (s : list A) (w : nat) (c : A) :
  length s <= w -> length (ljust s w c) = w.
Proof.
  intros H. unfold ljust. rewrite length_app, repeat_length. lia.
Qed.

Lemma rjust_full {A} (s : list A) (w : nat) (c : A) :
  w <= length s -> rjust s w c = s.
Proof.
  intros H. unfold rjust. replace (w - length s) with 0 by lia. reflexivity.
Qed.

Lemma length_hexdigest (bs : bytes) : length (hexdigest bs) = 2 * length bs.
Proof.
  induction bs as [|b bs IH]; simpl; [reflexivity|]. rewrite IH. lia.
Qed.

Lemma length_hexbytes_hex (bs : bytes) :
  length (hexbytes_hex bs) = 2 + 2 * length bs.
Proof.
  unfold hexbytes_hex. rewrite length_app, length_hexdigest. reflexivity.
Qed.

(** Decoding the two digits of a byte gives the byte back. *)
Lemma fromhex_hex_of_byte (b : byte) (s : str) :
  fromhex (hex_of_byte b ++ s) =
  match fromhex s with
  | Some bs => Some (b :: bs)
  | None => None
  end.
Proof.
  destruct b; reflexivity.
Qed.

Lemma fromhex_hexdigest (bs : bytes) : fromhex (hexdigest bs) = Some bs.
Proof.
  induction bs as [|b bs IH]; [reflexivity|].
  change (hexdigest (b :: bs)) with (hex_of_byte b ++ hexdigest bs).
  rewrite fromhex_hex_of_byte, IH. reflexivity.
Qed.

Lemma hexdigest_app (a b : bytes) :
  hexdigest (a ++ b) = hexdigest a ++ hexdigest b.
Proof.
  unfold hexdigest. apply flat_map_app.
Qed.

Lemma hexdigest_zeros (n : nat) :
  hexdigest (repeat x00 n) = repeat "0"%char (2 * n).
Proof.
  induction n as [|n IH]; [reflexivity|].
  replace (2 * S n) with (S (S (2 * n))) by lia.
  simpl repeat. change (hexdigest (x00 :: repeat x00 n))
    with (hex_of_byte x00 ++ hexdigest (repeat x00 n)).
  rewrite IH. reflexivity.
Qed.

Lemma is_hex_not_space (c : ascii) : is_hex c = true -> is_space c = false.
Proof.
  destruct c as [[] [] [] [] [] [] [] []]; vm_compute; intros H;
    first [reflexivity | discriminate H].
Qed.

Lemma hex_string_hex_of_byte (b : byte) : hex_string (hex_of_byte b) = true.
Proof.
  destruct b; reflexivity.
Qed.

Lemma hex_string_app (a b : str) :
  hex_string (a ++ b) = hex_string a && hex_string b.
Proof.
  apply forallb_app.
Qed.

Lemma hex_string_hexdigest (bs : bytes) : hex_string (hexdigest bs) = true.
Proof.
  induction bs as [|b bs IH]; [reflexivity|].
  change (hexdigest (b :: bs)) with (hex_of_byte b ++ hexdigest bs).
  rewrite hex_string_app, hex_string_hex_of_byte, IH. reflexivity.
Qed.

Lemma hex_string_zeros (n : nat) : hex_string (repeat "0"%char n) = true.
Proof.
  induction n as [|n IH]; [reflexivity|]. simpl. exact IH.
Qed.

(** A string of hexadecimal digits does not start with [0x]. *)
Lemma hex_string_no_prefix (s : str) :
  hex_string s = true -> startswith s (lit "0x") = false.
Proof.
  intros H. destruct s as [|c [|d s]].
  - reflexivity.
  - simpl. apply andb_false_r.
  - destruct (Ascii.eqb_spec "x"%char d) as [<-|Hd].
    + change (hex_string (c :: "x"%char :: s))
        with (is_hex c && (false && hex_string s)) in H.
      rewrite andb_false_l, andb_false_r in H. discriminate.
    + change (startswith (c :: d :: s) (lit "0x"))
        with (Ascii.eqb "0"%char c && (Ascii.eqb "x"%char d && true)).
      destruct (Ascii.eqb_spec "x"%char d); [contradiction|].
      rewrite andb_false_l. apply andb_false_r.
Qed.

Lemma skipn_with_prefix (prefixed : bool) (s : str) :
  hex_string s = true ->
  skipn 2
    (if negb (startswith (with_prefix prefixed s) (lit "0x"))
     then lit "0x" ++ with_prefix prefixed s else with_prefix prefixed s) = s.
Proof.
  intros H. destruct prefixed; unfold with_prefix.
  - reflexivity.
  - rewrite app_nil_l, (hex_string_no_prefix s H). reflexivity.
Qed.

Lemma length_normalized_prefix (prefixed : bool) (s : str) :
  hex_string s = true ->
  (if negb (startswith (with_prefix prefixed s) (lit "0x"))
   then lit "0x" ++ with_prefix prefixed s else with_prefix prefixed s)
  = lit "0x" ++ s.
Proof.
  intros H. destruct prefixed; unfold with_prefix.
  - reflexivity.
  - rewrite app_nil_l, (hex_string_no_prefix s H). reflexivity.
Qed.

(** An even number of hexadecimal digits always decodes. *)
Lemma fromhex_hex_string (n : nat) :
  forall s, hex_string s = true -> length s = 2 * n ->
  exists bs, fromhex s = Some bs /\ length bs = n.
Proof.
  induction n as [|n IH]; intros s Hs Hl.
  - destruct s; [|discriminate]. exists []. split; reflexivity.
  - destruct s as [|c [|d s]]; try (simpl in Hl; lia).
    simpl in Hs. apply andb_prop in Hs as [Hc Hs].
    apply andb_prop in Hs as [Hd Hs].
    destruct (IH s Hs) as (bs & Hbs & Hlen); [simpl in Hl; lia|].
    simpl. rewrite (is_hex_not_space c Hc).
    unfold is_hex in Hc, Hd.
    destruct (hexval c) as [hc|]; [|discriminate].
    destruct (hexval d) as [hd|]; [|discriminate].
    rewrite Hbs. eexists. split; [reflexivity|]. simpl. lia.
Qed.

(** ** The attestation signer *)

Section Signer.
Context {C : Crypto}.
Import CryptoUtils.

(** A full-length hash keeps its digits; a short one is padded with ['0']
    on the right, up to 66 characters. *)
Lemma normalize_hash_digits (prefixed : bool) (h : str) :
  hex_string h = true ->
  normalize_hash (with_prefix prefixed h)
  = lit "0x" ++ h ++ repeat "0"%char (64 - length h).
Proof.
  intros Hh. unfold normalize_hash.
  rewrite (length_normalized_prefix prefixed h Hh).
  destruct (Nat.ltb_spec (length (lit "0x" ++ h)) 66) as [Hlt|Hge].
  - unfold ljust. rewrite <- app_assoc. reflexivity.
  - rewrite length_app in Hge. simpl in Hge.
    replace (64 - length h) with 0 by lia. rewrite app_nil_r. reflexivity.
Qed.

Lemma normalize_address_digits (prefixed : bool) (a : str) :
  hex_string a = true ->
  normalize_address (with_prefix prefixed a) = lit "0x" ++ a.
Proof.
  intros Ha. unfold normalize_address.
  apply (length_normalized_prefix prefixed a Ha).
Qed.

(** When the two strings decode, the [try] block hashes the padded
    address followed by the hash bytes. *)
Lemma message_hash_decoded (h a : str) (ab hb : bytes) :
  length a = 40 -> length h = 64 ->
  fromhex a = Some ab -> fromhex h = Some hb ->
  message_hash (lit "0x" ++ h) (lit "0x" ++ a)
  = Some (keccak (rjust ab 32 x00 ++ hb)).
Proof.
  intros La Lh Ha Hh. unfold message_hash.
  change (skipn 2 (lit "0x" ++ a)) with a.
  change (skipn 2 (lit "0x" ++ h)) with h.
  rewrite !rjust_full by lia. rewrite Ha, Hh. reflexivity.
Qed.

Lemma generate_ethereum_signature_signed (h a k : str) (mh sig : bytes)
    (acct : account) :
  message_hash (normalize_hash h) (normalize_address a) = Some mh ->
  from_key k = Some acct ->
  signHash acct mh = Some sig ->
  generate_ethereum_signature h a k = hexbytes_hex sig.
Proof.
  intros Hm Hk Hs. unfold generate_ethereum_signature, ethereum_signature_try.
  rewrite Hm, Hk, Hs. reflexivity.
Qed.

(** C4 (the code against the verifier it documents).  For a 20-byte
    wallet address and a 32-byte digest, given as the hexadecimal strings
    the function takes (with or without [0x]), the message hash computed
    by [generate_ethereum_signature] is Keccak-256 of a 64-byte buffer:
    12 zero bytes, the address, the digest; that hash is the one that is
    signed.  The hash of (address, bytes32) that the source documents for
    the verifier is Keccak-256 of the 52 packed bytes, the address
    followed by the digest.  The two preimages differ (64 bytes against
    52), so the two hashes can agree only where Keccak-256 collides. *)
Theorem C4_message_hash_is_not_the_documented_packed_hash
    (p1 p2 : bool) (wallet digest : bytes) :
  length wallet = 20 -> length digest = 32 ->
  let h := with_prefix p1 (hexdigest digest) in
  let a := with_prefix p2 (hexdigest wallet) in
  message_hash (normalize_hash h) (normalize_address a)
    = Some (keccak (padded_buffer wallet digest))
  /\ padded_buffer wallet digest = repeat x00 12 ++ wallet ++ digest
  /\ length (padded_buffer wallet digest) = 64
  /\ length (solidity_packed wallet digest) = 52
  /\ padded_buffer wallet digest <> solidity_packed wallet digest
  /\ solidityKeccak256 wallet digest = keccak (wallet ++ digest)
  /\ forall k acct sig,
       from_key k = Some acct ->
       signHash acct (keccak (padded_buffer wallet digest)) = Some sig ->
       generate_ethereum_signature h a k = hexbytes_hex sig.
Proof.
  intros Lw Ld h a.
  assert (Hm : message_hash (normalize_hash h) (normalize_address a)
               = Some (keccak (padded_buffer wallet digest))).
  { unfold h, a.
    rewrite normalize_hash_digits by apply hex_string_hexdigest.
    rewrite normalize_address_digits by apply hex_string_hexdigest.
    rewrite length_hexdigest, Ld. simpl repeat. rewrite app_nil_r.
    rewrite (message_hash_decoded _ _ wallet digest);
      rewrite ?length_hexdigest, ?fromhex_hexdigest; try lia; reflexivity. }
  assert (Hb : padded_buffer wallet digest
               = repeat x00 12 ++ wallet ++ digest).
  { unfold padded_buffer, rjust. rewrite Lw, <- app_assoc. reflexivity. }
  assert (L64 : length (padded_buffer wallet digest) = 64).
  { rewrite Hb, !length_app, repeat_length. lia. }
  assert (L52 : length (solidity_packed wallet digest) = 52).
  { unfold solidity_packed. rewrite length_app. lia. }
  assert (Hne : padded_buffer wallet digest <> solidity_packed wallet digest).
  { intros E. rewrite E in L64. rewrite L52 in L64. discriminate. }
  split; [exact Hm|]. split; [exact Hb|]. split; [exact L64|].
  split; [exact L52|]. split; [exact Hne|]. split; [reflexivity|].
  intros k acct sig Hk Hs.
  exact (generate_ethereum_signature_signed h a k _ sig acct Hm Hk Hs).
Qed.

(** C10.  A hash string of fewer than 64 hexadecimal digits is accepted:
    behind the [0x] prefix it is padded with ['0'] characters on the
    right, up to 66 characters, the padded digits decode to 32 bytes (the
    bytes of the input followed by zero bytes), and the signature that is
    returned is the signature of the hash of the padded address followed by
    these 32 bytes. *)
Theorem C10_short_hash_is_right_padded_and_signed
    (prefixed : bool) (h a k : str) (ab : bytes) (acct : account) :
  hex_string h = true -> length h < 64 ->
  fromhex (rjust (skipn 2 (normalize_address a)) 40 "0"%char) = Some ab ->
  from_key k = Some acct ->
  let input := with_prefix prefixed h in
  let padded := h ++ repeat "0"%char (64 - length h) in
  normalize_hash input = lit "0x" ++ padded
  /\ length (normalize_hash input) = 66
  /\ exists hb,
       fromhex padded = Some hb /\ length hb = 32
       /\ (forall d, h = hexdigest d ->
             hb = d ++ repeat x00 (32 - length d))
       /\ message_hash (normalize_hash input) (normalize_address a)
          = Some (keccak (rjust ab 32 x00 ++ hb))
       /\ forall sig,
            signHash acct (keccak (rjust ab 32 x00 ++ hb)) = Some sig ->
            generate_ethereum_signature input a k = hexbytes_hex sig.
Proof.
  intros Hh Hl Ha Hk input padded.
  assert (Hn : normalize_hash input = lit "0x" ++ padded)
    by (apply normalize_hash_digits; exact Hh).
  assert (Lp : length padded = 64).
  { unfold padded. rewrite length_app, repeat_length. lia. }
  assert (Hp : hex_string padded = true).
  { unfold padded. rewrite hex_string_app, Hh, hex_string_zeros.
    reflexivity. }
  destruct (fromhex_hex_string 32 padded Hp Lp) as (hb & Hhb & Lhb).
  assert (Hm : message_hash (normalize_hash input) (normalize_address a)
               = Some (keccak (rjust ab 32 x00 ++ hb))).
  { rewrite Hn. unfold message_hash.
    change (skipn 2 (lit "0x" ++ padded)) with padded.
    rewrite Ha. rewrite (rjust_full padded) by lia. rewrite Hhb.
    reflexivity. }
  split; [exact Hn|]. split.
  { rewrite Hn, length_app, Lp. reflexivity. }
  exists hb. split; [exact Hhb|]. split; [exact Lhb|]. split.
  { intros d ->. rewrite length_hexdigest in *.
    assert (E : padded = hexdigest (d ++ repeat x00 (32 - length d))).
    { unfold padded. rewrite hexdigest_app, hexdigest_zeros, length_hexdigest.
      do 2 f_equal. lia. }
    rewrite E, fromhex_hexdigest in Hhb. congruence. }
  split; [exact Hm|].
  intros sig Hs.
  exact (generate_ethereum_signature_signed input a k _ sig acct Hm Hk Hs).
Qed.

End Signer.

Section SignerFallback.
Context {C : Crypto}.
Import CryptoUtils.

Lemma length_generate_hash (d : bytes) : length (generate_hash d) = 64.
Proof.
  unfold generate_hash. rewrite length_hexdigest, sha256_length. reflexivity.
Qed.

Lemma nonempty_of_length {A} (l : list A) (n : nat) :
  length l = S n -> l <> [].
Proof.
  intros H ->. discriminate.
Qed.

(** What [sign_data_simple] returns, by case. *)
Lemma sign_data_simple_cases (data wallet key : str) :
  (exists acct sig,
     from_key key = Some acct
     /\ sign_message acct (data ++ lit "." ++ wallet) = Some sig
     /\ sign_data_simple data wallet key = hexbytes_hex sig)
  \/ ((from_key key = None
       \/ exists acct, from_key key = Some acct
                       /\ sign_message acct (data ++ lit "." ++ wallet) = None)
      /\ sign_data_simple data wallet key
         = lit "0x" ++ hexdigest (sha256 (encode (data ++ wallet)))).
Proof.
  unfold sign_data_simple.
  destruct (from_key key) as [acct|] eqn:Hk.
  - destruct (sign_message acct _) as [sig|] eqn:Hs.
    + left. exists acct, sig. auto.
    + right. split; [right; exists acct; auto|reflexivity].
  - right. split; [left; reflexivity|reflexivity].
Qed.

Lemma length_signature_hex (sig : bytes) :
  length sig = 65 ->
  length (hexbytes_hex sig) = 132 /\ is_ethereum_format (hexbytes_hex sig) = true.
Proof.
  intros H. unfold is_ethereum_format.
  rewrite length_hexbytes_hex, H. split; reflexivity.
Qed.

Lemma length_sha256_fallback (d : bytes) :
  length (lit "0x" ++ hexdigest (sha256 d)) = 66
  /\ is_ethereum_format (lit "0x" ++ hexdigest (sha256 d)) = false.
Proof.
  unfold is_ethereum_format.
  rewrite length_app, length_hexdigest, sha256_length. split; reflexivity.
Qed.

Lemma sign_data_simple_nonempty (data wallet key : str) :
  sign_data_simple data wallet key <> [].
Proof.
  destruct (sign_data_simple_cases data wallet key)
    as [(acct & sig & _ & _ & ->)|[_ ->]]; discriminate.
Qed.

Lemma generate_ethereum_signature_nonempty (h a k : str) :
  generate_ethereum_signature h a k <> [].
Proof.
  unfold generate_ethereum_signature, ethereum_signature_try.
  destruct (message_hash _ _) as [mh|]; [|apply sign_data_simple_nonempty].
  destruct (from_key k) as [acct|]; [|apply sign_data_simple_nonempty].
  destruct (signHash acct mh); [discriminate|apply sign_data_simple_nonempty].
Qed.

Lemma sign_data_nonempty (pk : private_key) (data wallet : str) :
  sign_data pk data wallet <> [].
Proof.
  unfold sign_data. destruct pk as [s|k].
  - destruct (startswith s (lit "0x"));
      [apply sign_data_simple_nonempty|discriminate].
  - destruct (ec_sign k _) as [sig|] eqn:Hs; [|discriminate].
    apply b64encode_nonempty. exact (ec_sign_nonempty _ _ _ Hs).
Qed.

End SignerFallback.

(** ** The verification workflow *)

Module VerifyFacts.
Import CryptoUtils Verify.

Ltac break_match :=
  match goal with
  | |- context [match ?x with _ => _ end] => destruct x eqn:?
  | |- context [if ?x then _ else _] => destruct x eqn:?
  end.

Section Frames.

(** The video thread neither logs nor prints. *)
Lemma analyze_liveness_quiet (t : Q) (f : frame) (s : state) :
  db (analyze_liveness t f s) = db s
  /\ console (analyze_liveness t f s) = console s
  /\ lip_sequence (analyze_liveness t f s) = lip_sequence s
  /\ audio_buffer (analyze_liveness t f s) = audio_buffer s
  /\ is_verifying (analyze_liveness t f s) = is_verifying s
  /\ current_challenge (analyze_liveness t f s) = current_challenge s.
Proof.
  unfold analyze_liveness. repeat break_match; repeat split; reflexivity.
Qed.

Lemma update_video_feed_quiet (t : Q) (f : frame) (s : state) :
  db (update_video_feed t f s) = db s
  /\ console (update_video_feed t f s) = console s
  /\ audio_buffer (update_video_feed t f s) = audio_buffer s
  /\ is_verifying (update_video_feed t f s) = is_verifying s
  /\ current_challenge (update_video_feed t f s) = current_challenge s.
Proof.
  unfold update_video_feed, _analyze_frame.
  destruct (analyze_liveness_quiet t f s) as (H1 & H2 & H3 & H4 & H5 & H6).
  repeat break_match; simpl; repeat split; assumption || reflexivity.
Qed.

(** [audio_buffer] is never filled, so no lip frame is ever buffered. *)
Lemma update_video_feed_no_lips (t : Q) (f : frame) (s : state) :
  audio_buffer s = [] ->
  lip_sequence (update_video_feed t f s) = lip_sequence s.
Proof.
  intros H. unfold update_video_feed, _analyze_frame.
  destruct (analyze_liveness_quiet t f s) as (_ & _ & H3 & H4 & _).
  destruct (is_verifying s); [|reflexivity].
  rewrite H4, H. exact H3.
Qed.

Lemma face_poll_quiet (c : challenge_type) (start : Q) (evs : list event) :
  forall s s' rest,
    face_poll c start evs s = Some (s', rest) ->
    db s' = db s /\ console s' = console s.
Proof.
  induction evs as [|[t f|t] evs IH]; intros s s' rest H;
    cbn [face_poll] in H.
  - discriminate.
  - apply IH in H.
    destruct (update_video_feed_quiet t f s) as (H1 & H2 & _).
    rewrite <- H1, <- H2. exact H.
  - destruct (Qltb (t - start) timeout).
    + destruct (is_blink c && (2 <=? blink_count s)).
      { injection H as <- _. split; reflexivity. }
      destruct (negb (is_blink c) && face_liveness (verification_results s)).
      { injection H as <- _. split; reflexivity. }
      apply IH in H. exact H.
    + injection H as <- _. split; reflexivity.
Qed.

Lemma face_challenge_quiet (c : challenge_type) (start : Q)
    (evs : list event) (s s' : state) (ok : bool) (rest : list event) :
  _perform_face_liveness_challenge c start evs s = Some (s', ok, rest) ->
  db s' = db s /\ console s' = console s
  /\ ok = face_liveness (verification_results s').
Proof.
  unfold _perform_face_liveness_challenge. intros H.
  destruct (face_poll c start evs _) as [[s1 r1]|] eqn:Hp; [|discriminate].
  injection H as <- <- _. apply face_poll_quiet in Hp as [H1 H2].
  simpl in *. repeat split; assumption.
Qed.

(** The video thread only ever sets [face_liveness]. *)
Lemma update_video_feed_results (t : Q) (f : frame) (s : state) :
  voice_match (verification_results (update_video_feed t f s))
  = voice_match (verification_results s)
  /\ lip_sync (verification_results (update_video_feed t f s))
     = lip_sync (verification_results s).
Proof.
  unfold update_video_feed, _analyze_frame, analyze_liveness.
  repeat break_match; split; reflexivity.
Qed.

Lemma face_poll_results (c : challenge_type) (start : Q) (evs : list event) :
  forall s s' rest,
    face_poll c start evs s = Some (s', rest) ->
    voice_match (verification_results s')
    = voice_match (verification_results s)
    /\ lip_sync (verification_results s') = lip_sync (verification_results s).
Proof.
  induction evs as [|[t f|t] evs IH]; intros s s' rest H;
    cbn [face_poll] in H.
  - discriminate.
  - apply IH in H. destruct (update_video_feed_results t f s) as [H1 H2].
    rewrite <- H1, <- H2. exact H.
  - destruct (Qltb (t - start) timeout).
    + destruct (is_blink c && (2 <=? blink_count s)).
      { injection H as <- _. split; reflexivity. }
      destruct (negb (is_blink c) && face_liveness (verification_results s)).
      { injection H as <- _. split; reflexivity. }
      apply IH in H. exact H.
    + injection H as <- _. split; reflexivity.
Qed.

Lemma face_challenge_results (c : challenge_type) (start : Q)
    (evs : list event) (s s' : state) (ok : bool) (rest : list event) :
  _perform_face_liveness_challenge c start evs s = Some (s', ok, rest) ->
  voice_match (verification_results s') = voice_match (verification_results s)
  /\ lip_sync (verification_results s') = lip_sync (verification_results s).
Proof.
  unfold _perform_face_liveness_challenge. intros H.
  destruct (face_poll c start evs _) as [[s1 r1]|] eqn:Hp; [|discriminate].
  injection H as <- _ _. apply face_poll_results in Hp as [H1 H2].
  simpl in *. split; assumption.
Qed.

End Frames.

Section StageFacts.
Context {C : Crypto} {S : Signals}.

Lemma attestation_attested (sess : session) (env : final_env) (r : results) :
  fst (attestation sess env r) <> [] /\ snd (attestation sess env r) <> [].
Proof.
  unfold attestation.
  destruct (backend_private_key env) as [key|]; simpl; split.
  - apply (nonempty_of_length _ 63), length_generate_hash.
  - apply generate_ethereum_signature_nonempty.
  - apply (nonempty_of_length _ 63), length_generate_hash.
  - apply sign_data_nonempty.
Qed.

Lemma final_verification_pass (sess : session) (env : final_env) (s : state) :
  passed (verification_results s) = true ->
  _perform_final_verification sess env s
  = (set_overall_result true
       (log_verification
          (mkLog (user_id sess) true true true true
             (fst (attestation sess env (verification_results s)))
             (snd (attestation sess env (verification_results s)))) s),
     true).
Proof.
  unfold passed, _perform_final_verification. intros H. rewrite H.
  apply andb_prop in H as [H Hl]. apply andb_prop in H as [Hf Hv].
  rewrite Hf, Hv, Hl.
  destruct (attestation sess env (verification_results s)). reflexivity.
Qed.

Lemma final_verification_fail (sess : session) (env : final_env) (s : state) :
  passed (verification_results s) = false ->
  _perform_final_verification sess env s = (s, false).
Proof.
  unfold passed, _perform_final_verification. intros H. rewrite H.
  reflexivity.
Qed.

Lemma final_verification_verdict (sess : session) (env : final_env)
    (s : state) :
  snd (_perform_final_verification sess env s)
  = passed (verification_results s).
Proof.
  destruct (passed (verification_results s)) eqn:H.
  - rewrite final_verification_pass by exact H. reflexivity.
  - rewrite final_verification_fail by exact H. reflexivity.
Qed.

Lemma sound_entry_failed (u : str) (f v l : bool) :
  sound_entry (mkLog u f v l false [] []).
Proof.
  split.
  - split; [discriminate|]. intros [H _]. contradiction.
  - intros _. repeat split.
Qed.

Lemma sound_entry_passed (u h sig : str) :
  h <> [] -> sig <> [] -> sound_entry (mkLog u true true true true h sig).
Proof.
  intros Hh Hs. split.
  - split; [intros _; split; assumption|reflexivity].
  - intros [H|[H|H]]; discriminate H.
Qed.

Lemma failed_log (sess : session) (reason : str) (s : state) :
  db (_verification_failed sess reason s)
  = db s ++ [mkLog (user_id sess)
               (face_liveness (verification_results s))
               (voice_match (verification_results s))
               (lip_sync (verification_results s)) false [] []]
  /\ console (_verification_failed sess reason s)
     = console s ++ [Failed reason]
  /\ verification_results (_verification_failed sess reason s)
     = verification_results s.
Proof.
  repeat split.
Qed.

(** Stage 3 appends one entry; its verdict is the conjunction of the
    three stage results. *)
Lemma final_stage_log (sess : session) (env : final_env) (s : state) :
  exists e,
    db (final_stage sess env s) = db s ++ [e]
    /\ log_overall_result e = passed (verification_results s)
    /\ log_face_liveness e = face_liveness (verification_results s)
    /\ log_voice_match e = voice_match (verification_results s)
    /\ log_lip_sync e = lip_sync (verification_results s)
    /\ sound_entry e.
Proof.
  unfold final_stage.
  destruct (passed (verification_results s)) eqn:H.
  - rewrite final_verification_pass by exact H.
    destruct (attestation_attested sess env (verification_results s))
      as [Hh Hs].
    unfold passed in H.
    apply andb_prop in H as [H Hl]. apply andb_prop in H as [Hf Hv].
    eexists. split; [reflexivity|]. cbn [log_overall_result
      log_face_liveness log_voice_match log_lip_sync].
    rewrite Hf, Hv, Hl.
    do 4 (split; [reflexivity|]).
    apply sound_entry_passed; assumption.
  - rewrite final_verification_fail by exact H.
    eexists. split; [reflexivity|]. cbn [log_overall_result
      log_face_liveness log_voice_match log_lip_sync].
    do 4 (split; [reflexivity|]).
    apply sound_entry_failed.
Qed.

Lemma analyze_lip_sync_db (audio : list Q) (s : state) :
  db (fst (_analyze_lip_sync audio s)) = db s.
Proof.
  unfold _analyze_lip_sync. repeat break_match; reflexivity.
Qed.

Lemma lip_sync_analysis_unfold (audio : list Q) (s : state) :
  lip_sync_analysis audio s
  = if 10 <? length (lip_sequence s)
    then set_lip_sync (snd (_analyze_lip_sync audio s))
           (fst (_analyze_lip_sync audio s))
    else set_lip_sync false (say InsufficientLipData s).
Proof.
  unfold lip_sync_analysis.
  destruct (_analyze_lip_sync audio s). reflexivity.
Qed.

Lemma lip_sync_analysis_db (audio : list Q) (s : state) :
  db (lip_sync_analysis audio s) = db s.
Proof.
  rewrite lip_sync_analysis_unfold.
  destruct (10 <? length (lip_sequence s)); [|reflexivity].
  exact (analyze_lip_sync_db audio s).
Qed.

Lemma video_frames_quiet (frames : list (Q * frame)) :
  forall s,
    db (fold_left (fun s tf => update_video_feed (fst tf) (snd tf) s)
          frames s) = db s.
Proof.
  induction frames as [|[t f] frames IH]; intros s; simpl; [reflexivity|].
  rewrite IH. apply update_video_feed_quiet.
Qed.

Lemma voice_matching_db (audio : list Q) (sim : Q) (s s1 : state) :
  voice_matching audio sim s = Some s1 -> db s1 = db s.
Proof.
  unfold voice_matching.
  destruct (0 <? length audio); [|intros [= <-]; reflexivity].
  destruct (extract_mfcc audio); [|discriminate].
  intros [= <-]. reflexivity.
Qed.

Lemma voice_analysis_db (recording : option (list Q)) (sim : Q) (s : state) :
  db (fst (voice_analysis recording sim s)) = db s.
Proof.
  unfold voice_analysis. destruct recording as [audio|]; [|reflexivity].
  destruct (voice_matching audio sim s) as [s1|] eqn:Hm; [|reflexivity].
  cbn [fst]. rewrite lip_sync_analysis_db.
  exact (voice_matching_db audio sim s s1 Hm).
Qed.

Lemma voice_challenge_db (frames : list (Q * frame))
    (recording : option (list Q)) (sim : Q) (s : state) :
  db (fst (_perform_voice_challenge frames recording sim s)) = db s.
Proof.
  unfold _perform_voice_challenge.
  rewrite voice_analysis_db, video_frames_quiet. reflexivity.
Qed.

Lemma video_frames_state (frames : list (Q * frame)) :
  forall s,
    let s' := fold_left (fun s tf => update_video_feed (fst tf) (snd tf) s)
                frames s in
    voice_match (verification_results s')
    = voice_match (verification_results s)
    /\ (audio_buffer s = [] ->
        audio_buffer s' = [] /\ lip_sequence s' = lip_sequence s).
Proof.
  induction frames as [|[t f] frames IH]; intros s; simpl.
  - auto.
  - destruct (IH (update_video_feed t f s)) as [Hv Hl].
    destruct (update_video_feed_results t f s) as [Hv' _].
    destruct (update_video_feed_quiet t f s) as (_ & _ & Ha & _).
    split; [congruence|].
    intros Hs. rewrite <- (update_video_feed_no_lips t f s Hs).
    apply Hl. congruence.
Qed.

(** With no earlier voice match, the flag that stage 2 returns is the
    conjunction of the two results it leaves in the object, also when the
    recording or the feature extraction raises. *)
Lemma voice_analysis_verdict (recording : option (list Q)) (sim : Q)
    (s : state) :
  voice_match (verification_results s) = false ->
  snd (voice_analysis recording sim s)
  = voice_match (verification_results (fst (voice_analysis recording sim s)))
    && lip_sync (verification_results (fst (voice_analysis recording sim s))).
Proof.
  intros Hv. unfold voice_analysis.
  destruct recording as [audio|]; [|simpl; rewrite Hv; reflexivity].
  destruct (voice_matching audio sim s); [reflexivity|].
  simpl. rewrite Hv. reflexivity.
Qed.

Lemma voice_challenge_verdict (frames : list (Q * frame))
    (recording : option (list Q)) (sim : Q) (s : state) :
  voice_match (verification_results s) = false ->
  let out := _perform_voice_challenge frames recording sim s in
  snd out
  = voice_match (verification_results (fst out))
    && lip_sync (verification_results (fst out)).
Proof.
  intros Hv. unfold _perform_voice_challenge.
  apply voice_analysis_verdict.
  destruct (video_frames_state frames
              (set_lip_sequence [] (set_audio_buffer [] s))) as [H _].
  rewrite H. exact Hv.
Qed.

(** No frame is buffered while [audio_buffer] is empty, and nothing fills
    it: stage 2 as written never succeeds. *)
Lemma voice_challenge_never_passes (frames : list (Q * frame))
    (recording : option (list Q)) (sim : Q) (s : state) :
  snd (_perform_voice_challenge frames recording sim s) = false.
Proof.
  unfold _perform_voice_challenge.
  destruct (video_frames_state frames
              (set_lip_sequence [] (set_audio_buffer [] s))) as [_ H].
  destruct (H eq_refl) as [_ Hl]. clear H.
  set (s1 := fold_left _ frames _) in *. simpl in Hl.
  unfold voice_analysis. destruct recording as [audio|]; [|reflexivity].
  destruct (voice_matching audio sim s1) as [s2|] eqn:Hm; [|reflexivity].
  assert (Hl2 : lip_sequence s2 = []).
  { unfold voice_matching in Hm.
    destruct (0 <? length audio); [|injection Hm as <-; exact Hl].
    destruct (extract_mfcc audio); [|discriminate].
    injection Hm as <-. exact Hl. }
  cbn [snd]. rewrite lip_sync_analysis_unfold, Hl2. simpl.
  apply andb_false_r.
Qed.

(** Every run of the workflow logs one entry, and it is sound. *)
Lemma workflow_log (sess : session) (i : inputs) (s s' : state) :
  _verification_workflow sess i s = Some s' ->
  exists e, db s' = db s ++ [e] /\ sound_entry e.
Proof.
  unfold _verification_workflow. intros H.
  destruct (_perform_face_liveness_challenge _ _ _ _)
    as [[[s1 ok] rest]|] eqn:Hface; [|discriminate].
  apply face_challenge_quiet in Hface as (Hdb & _ & _). simpl in Hdb.
  injection H as <-. destruct ok; simpl negb; cbv iota.
  - destruct (_perform_voice_challenge _ _ _ _) as [s2 ok2] eqn:Hvoice.
    assert (Hdb2 : db s2 = db s).
    { rewrite <- Hdb. change s2 with (fst (s2, ok2)). rewrite <- Hvoice.
      rewrite voice_challenge_db. reflexivity. }
    destruct ok2; simpl negb; cbv iota.
    + destruct (final_stage_log sess (env i) s2) as (e & He & _ & _ & _ & _ & Hs).
      exists e. split; [|exact Hs]. simpl. rewrite He, Hdb2. reflexivity.
    + eexists. split; [|apply sound_entry_failed]. simpl.
      rewrite Hdb2. reflexivity.
  - eexists. split; [|apply sound_entry_failed]. simpl.
    rewrite Hdb. reflexivity.
Qed.

(** Started from an idle object, the run logs a verdict that is the
    conjunction of the three stage results it logs. *)
Lemma started_workflow_verdict (sess : session) (i : inputs) (s s' : state) :
  is_verifying s = false ->
  start_verification_process sess i s = Some s' ->
  exists e,
    db s' = db s ++ [e]
    /\ log_overall_result e
       = log_face_liveness e && log_voice_match e && log_lip_sync e.
Proof.
  intros Hidle. unfold start_verification_process. rewrite Hidle.
  set (s0 := reset_verification_state (set_is_verifying true s)).
  unfold _verification_workflow. intros H.
  destruct (_perform_face_liveness_challenge _ _ _ _)
    as [[[s1 ok] rest]|] eqn:Hface; [|discriminate].
  pose proof (face_challenge_quiet _ _ _ _ _ _ _ Hface) as (Hdb & _ & Hok).
  apply face_challenge_results in Hface as [Hv Hl].
  simpl in Hdb, Hv, Hl. injection H as <-.
  destruct ok; simpl negb; cbv iota.
  - pose proof (voice_challenge_verdict (voice_frames i) (recording i)
                  (voice_similarity i) (say StageVoice s1) Hv) as Hout.
    cbv zeta in Hout.
    destruct (_perform_voice_challenge _ _ _ _) as [s2 ok2] eqn:Hvoice.
    assert (Hdb2 : db s2 = db s).
    { change s2 with (fst (s2, ok2)). rewrite <- Hvoice.
      rewrite voice_challenge_db. exact Hdb. }
    cbn [fst snd] in Hout.
    destruct ok2; simpl negb; cbv iota.
    + destruct (final_stage_log sess (env i) s2)
        as (e & He & Ho & Hf1 & Hf2 & Hf3 & _).
      exists e. split.
      * simpl. rewrite He, Hdb2. reflexivity.
      * rewrite Ho, Hf1, Hf2, Hf3. reflexivity.
    + eexists. split.
      * simpl. rewrite Hdb2. reflexivity.
      * simpl. rewrite <- andb_assoc, <- Hout. symmetry. apply andb_false_r.
  - eexists. split.
    + simpl. rewrite Hdb. reflexivity.
    + simpl. rewrite <- Hok. reflexivity.
Qed.

(** As no lip frame is ever buffered, every run ends with a failed
    verdict. *)
Lemma workflow_always_fails (sess : session) (i : inputs) (s s' : state) :
  _verification_workflow sess i s = Some s' ->
  exists e, db s' = db s ++ [e] /\ log_overall_result e = false.
Proof.
  unfold _verification_workflow. intros H.
  destruct (_perform_face_liveness_challenge _ _ _ _)
    as [[[s1 ok] rest]|] eqn:Hface; [|discriminate].
  apply face_challenge_quiet in Hface as (Hdb & _ & _). simpl in Hdb.
  injection H as <-. destruct ok; simpl negb; cbv iota.
  - pose proof (voice_challenge_never_passes (voice_frames i) (recording i)
                  (voice_similarity i) (say StageVoice s1)) as Hnever.
    destruct (_perform_voice_challenge _ _ _ _) as [s2 ok2] eqn:Hvoice.
    assert (Hdb2 : db s2 = db s).
    { rewrite <- Hdb. change s2 with (fst (s2, ok2)). rewrite <- Hvoice.
      rewrite voice_challenge_db. reflexivity. }
    cbn [snd] in Hnever. subst ok2. simpl negb. cbv iota.
    eexists. split.
    + simpl. rewrite Hdb2. reflexivity.
    + reflexivity.
  - eexists. split.
    + simpl. rewrite Hdb. reflexivity.
    + reflexivity.
Qed.

End StageFacts.

Section Workflow.
Context {C : Crypto} {S : Signals}.

(** C1.  The verdict returned by [_perform_final_verification] is the
    conjunction of the three stage results, for each of the 8
    combinations; it is true exactly when the three are true; the stage
    results are left as they are; the entry that stage 3 logs carries
    this verdict, whatever the keys, the clock or the backend answer; and
    the verdict logged by a run started from an idle object is the
    conjunction of the three stage results logged with it. *)
Theorem C1_verdict_is_conjunction_of_three_stages
    (sess : session) (env : final_env) (s : state) :
  let r := verification_results s in
  let out := _perform_final_verification sess env s in
  snd out = face_liveness r && voice_match r && lip_sync r
  /\ (snd out = true <->
      face_liveness r = true /\ voice_match r = true /\ lip_sync r = true)
  /\ (forall f v l o : bool,
        snd (_perform_final_verification sess env
               (set_results (mkResults f v l o) s)) = f && v && l)
  /\ passed (verification_results (fst out)) = passed r
  /\ (exists e,
        db (final_stage sess env s) = db s ++ [e]
        /\ log_overall_result e = snd out)
  /\ forall i s',
       is_verifying s = false ->
       start_verification_process sess i s = Some s' ->
       exists e,
         db s' = db s ++ [e]
         /\ log_overall_result e
            = log_face_liveness e && log_voice_match e && log_lip_sync e.
Proof.
  intros r out. unfold out.
  rewrite final_verification_verdict. fold r. unfold passed at 1 2.
  split; [reflexivity|]. split.
  { destruct (face_liveness r), (voice_match r), (lip_sync r); simpl;
      intuition discriminate. }
  split.
  { intros f v l o. rewrite final_verification_verdict. reflexivity. }
  split.
  { destruct (passed r) eqn:H; unfold r in H.
    - rewrite final_verification_pass by exact H. exact H.
    - rewrite final_verification_fail by exact H. exact H. }
  split.
  { destruct (final_stage_log sess env s) as (e & He & Ho & _).
    exists e. split; [exact He|exact Ho]. }
  intros i s'. apply started_workflow_verdict.
Qed.

(** C3.  Stage 3 logs exactly one entry, whose verdict is the conjunction
    of the three stages and which carries a non-empty hash and a non-empty
    signature if and only if that verdict is Pass; and every run of the
    workflow logs exactly one entry, with an attestation if and only if
    its verdict is Pass, and with verdict false and empty hash and
    signature whenever one of its stages failed. *)
Theorem C3_attestation_iff_verdict_pass
    (sess : session) (env : final_env) (s : state) :
  (exists e,
     db (final_stage sess env s) = db s ++ [e]
     /\ log_overall_result e = passed (verification_results s)
     /\ (log_overall_result e = true <-> attested e)
     /\ (stage_failed e ->
         log_overall_result e = false
         /\ log_hash_value e = [] /\ log_signature e = []))
  /\ (forall reason,
        db (_verification_failed sess reason s)
        = db s ++ [mkLog (user_id sess)
                     (face_liveness (verification_results s))
                     (voice_match (verification_results s))
                     (lip_sync (verification_results s)) false [] []])
  /\ (forall i s',
        _verification_workflow sess i s = Some s' ->
        exists e,
          db s' = db s ++ [e]
          /\ (log_overall_result e = true <-> attested e)
          /\ (stage_failed e ->
              log_overall_result e = false
              /\ log_hash_value e = [] /\ log_signature e = [])).
Proof.
  split; [|split].
  - destruct (final_stage_log sess env s) as (e & He & Ho & _ & _ & _ & Hs).
    exists e. destruct Hs as [H1 H2]. auto.
  - intros reason. reflexivity.
  - intros i s' H.
    destruct (workflow_log sess i s s' H) as (e & He & H1 & H2).
    exists e. auto.
Qed.

(** C5 (amended).  When the face stage ends without success, the
    workflow does not start the voice challenge: it reports the failure,
    logs an entry with verdict false and empty hash and signature, and
    stops. *)
Theorem C5_failed_face_stage_ends_the_session
    (sess : session) (i : inputs) (s s1 : state) (rest : list event) :
  _perform_face_liveness_challenge (challenge i) (start_time i)
    (face_events i) (say StageFace s) = Some (s1, false, rest) ->
  let reason := lit "Face liveness challenge failed" in
  let s' := set_is_verifying false (_verification_failed sess reason s1) in
  _verification_workflow sess i s = Some s'
  /\ console s' = console s ++ [StageFace; Failed reason]
  /\ ~ In StageVoice (skipn (length (console s)) (console s'))
  /\ face_liveness (verification_results s') = false
  /\ lip_sequence s' = lip_sequence s1
  /\ exists v l,
       db s' = db s ++ [mkLog (user_id sess) false v l false [] []].
Proof.
  intros H reason s'.
  pose proof (face_challenge_quiet _ _ _ _ _ _ _ H) as (Hdb & Hc & Hf).
  assert (Hcons : console s' = console s ++ [StageFace; Failed reason]).
  { unfold s'. simpl. rewrite Hc. simpl. rewrite <- app_assoc. reflexivity. }
  split.
  { unfold _verification_workflow. rewrite H. reflexivity. }
  split; [exact Hcons|]. split.
  { rewrite Hcons, skipn_app, skipn_all, Nat.sub_diag. simpl.
    intros [E|[E|[]]]; discriminate E. }
  split; [unfold s'; simpl; congruence|].
  split; [reflexivity|].
  eexists _, _. unfold s'. simpl. rewrite Hdb, <- Hf. reflexivity.
Qed.

(** C6 (amended).  The correlation is computed, and decides the lip-sync
    result, when more than 10 lip frames were buffered; with 10 frames or
    fewer the result is a failure and the correlation is not computed. *)
Theorem C6_lip_sync_needs_more_than_ten_frames
    (audio : list Q) (s : state) :
  (10 < length (lip_sequence s) ->
   match lip_audio_correlation (lip_sequence s) audio with
   | Some c =>
       lip_sync_analysis audio s
       = set_lip_sync (Qgtb (Qabs c) Config.LIP_SYNC_THRESHOLD)
           (say (LipSyncCorrelation c) s)
   | None => lip_sync_analysis audio s = set_lip_sync false s
   end)
  /\ (length (lip_sequence s) <= 10 ->
      lip_sync_analysis audio s
      = set_lip_sync false (say InsufficientLipData s)).
Proof.
  rewrite lip_sync_analysis_unfold. split; intros H.
  - destruct (Nat.ltb_spec 10 (length (lip_sequence s))); [|lia].
    unfold _analyze_lip_sync.
    destruct (Nat.ltb_spec (length (lip_sequence s)) 2); [lia|].
    destruct (lip_audio_correlation _ _); reflexivity.
  - destruct (Nat.ltb_spec 10 (length (lip_sequence s))); [lia|].
    reflexivity.
Qed.

(** C8 (amended).  When the Ethereum signing fails, the signer returns
    what [sign_data_simple] returns: with a key that loads, an EIP-191
    signature of the text "hash.address", which has the length and format
    of the on-chain signature (0x and 130 digits); only when the key does
    not load, or that signing fails too, a SHA-256 digest behind 0x, 66
    characters long.  The verdict does not depend on the keys. *)
Theorem C8_signing_failure_falls_back_to_simple_signature (h a k : str) :
  ethereum_signature_try (normalize_hash h) (normalize_address a) k = None ->
  let fallback := generate_ethereum_signature h a k in
  let message := normalize_hash h ++ lit "." ++ normalize_address a in
  fallback = sign_data_simple (normalize_hash h) (normalize_address a) k
  /\ (forall acct sig,
        from_key k = Some acct -> sign_message acct message = Some sig ->
        fallback = hexbytes_hex sig
        /\ length fallback = 132 /\ is_ethereum_format fallback = true)
  /\ (from_key k = None
      \/ (exists acct,
            from_key k = Some acct /\ sign_message acct message = None) ->
      length fallback = 66 /\ is_ethereum_format fallback = false)
  /\ forall sess env s,
       snd (_perform_final_verification sess env s)
       = passed (verification_results s).
Proof.
  intros Htry fallback message.
  assert (E : fallback
              = sign_data_simple (normalize_hash h) (normalize_address a) k).
  { unfold fallback, generate_ethereum_signature. rewrite Htry. reflexivity. }
  split; [exact E|]. rewrite E.
  destruct (sign_data_simple_cases (normalize_hash h) (normalize_address a) k)
    as [(acct & sig & Hk & Hs & ->)|[Hnone ->]]; subst message.
  - split; [|split].
    + intros acct' sig' Hk' Hs'. rewrite Hk in Hk'. injection Hk' as <-.
      rewrite Hs in Hs'. injection Hs' as <-.
      split; [reflexivity|].
      apply length_signature_hex. exact (sign_message_length _ _ _ Hs).
    + intros [Hk'|(acct' & Hk' & Hs')].
      * congruence.
      * rewrite Hk in Hk'. injection Hk' as <-. congruence.
    + intros sess env s. apply final_verification_verdict.
  - split; [|split].
    + intros acct sig Hk Hs. exfalso.
      destruct Hnone as [Hk'|(acct' & Hk' & Hs')]; [congruence|].
      rewrite Hk in Hk'. injection Hk' as <-. congruence.
    + intros _. apply length_sha256_fallback.
    + intros sess env s. apply final_verification_verdict.
Qed.

(** The code of C2: with a non-empty recording whose features can be
    extracted, the voice match is decided by the random draw alone. *)
Lemma voice_match_follows_random_draw (audio : list Q) (sim : Q)
    (s s1 : state) :
  audio <> [] ->
  voice_matching audio sim s = Some s1 ->
  voice_match (verification_results s1)
  = Qgtb sim Config.VOICE_SIMILARITY_THRESHOLD.
Proof.
  intros Ha. unfold voice_matching.
  destruct audio as [|x audio]; [contradiction|]. simpl.
  destruct (extract_mfcc (x :: audio)); [|discriminate].
  intros [= <-]. reflexivity.
Qed.

End Workflow.

(** *** Blink counting *)

Section Blink.

Lemma Qgtb_true (a b : Q) : (b < a)%Q -> Qgtb a b = true.
Proof.
  intros H. unfold Qgtb, Qltb. destruct (Qle_bool a b) eqn:E; [|reflexivity].
  apply Qle_bool_iff in E. exfalso. apply (Qlt_not_le _ _ H E).
Qed.

Lemma Qgtb_false (a b : Q) : (a <= b)%Q -> Qgtb a b = false.
Proof.
  intros H. unfold Qgtb, Qltb. apply Qle_bool_iff in H. rewrite H.
  reflexivity.
Qed.

Lemma Qgtb_lt (a b : Q) : Qgtb a b = true -> (b < a)%Q.
Proof.
  intros H. apply Qnot_le_lt. intros Hle.
  rewrite (Qgtb_false _ _ Hle) in H. discriminate.
Qed.

(** A frame either counts a blink, or leaves the counter and the time of
    the last blink as they are. *)
Lemma analyze_frame_blink_cases (t : Q) (f : frame) (s : state) :
  (detect_blink f = true
   /\ Qgtb (t - last_blink_time s) (5 # 10) = true
   /\ blink_count (_analyze_frame t f s) = blink_count s + 1
   /\ last_blink_time (_analyze_frame t f s) = t)
  \/ (blink_count (_analyze_frame t f s) = blink_count s
      /\ last_blink_time (_analyze_frame t f s) = last_blink_time s).
Proof.
  unfold _analyze_frame, analyze_liveness.
  repeat break_match; auto.
Qed.

Lemma analyze_liveness_blink (t : Q) (f : frame) (s : state) :
  current_challenge s = Some (challenge_text blink) ->
  analyze_liveness t f s
  = if detect_blink f then
      if Qgtb (t - last_blink_time s) (5 # 10)
      then set_blink (blink_count s + 1) t s else s
    else s.
Proof.
  intros H. unfold analyze_liveness. rewrite H. reflexivity.
Qed.

Lemma counting_video (n : nat) (last t : Q) (f : frame) (s : state) :
  counting n last s ->
  counting
    (if detect_blink f && Qgtb (t - last) (5 # 10) then n + 1 else n)
    (if detect_blink f && Qgtb (t - last) (5 # 10) then t else last)
    (update_video_feed t f s).
Proof.
  intros (Hv & Hc & Hn & Hl).
  destruct (update_video_feed_quiet t f s) as (_ & _ & _ & Hv' & Hc').
  unfold counting. rewrite Hv', Hc'. split; [exact Hv|].
  split; [exact Hc|].
  unfold update_video_feed, _analyze_frame. rewrite Hv.
  rewrite (analyze_liveness_blink t f s Hc), Hl, Hn.
  destruct (detect_blink f); simpl andb;
    [destruct (Qgtb (t - last) (5 # 10))|];
    destruct (0 <? length (audio_buffer _)); simpl; auto.
Qed.

Lemma counting_blink (n : nat) (last t : Q) (f : frame) (s : state) :
  counting n last s -> detect_blink f = true -> (last + (5 # 10) < t)%Q ->
  counting (n + 1) t (update_video_feed t f s).
Proof.
  intros Hs Hf Ht. pose proof (counting_video n last t f s Hs) as H.
  rewrite Hf, Qgtb_true in H by lra. exact H.
Qed.

Lemma counting_debounced (n : nat) (last t : Q) (f : frame) (s : state) :
  counting n last s -> (t - last <= 5 # 10)%Q ->
  counting n last (update_video_feed t f s).
Proof.
  intros Hs Ht. pose proof (counting_video n last t f s Hs) as H.
  rewrite Qgtb_false, andb_false_r in H by exact Ht. exact H.
Qed.

Lemma face_poll_blink_pass (start t : Q) (evs : list event) (s : state) :
  2 <= blink_count s -> (t - start < timeout)%Q ->
  face_poll blink start (Poll t :: evs) s
  = Some (set_face_liveness true s, evs).
Proof.
  intros Hn Ht. cbn [face_poll is_blink andb].
  unfold Qltb. destruct (Qle_bool timeout (t - start)) eqn:E.
  - apply Qle_bool_iff in E. exfalso. apply (Qlt_not_le _ _ Ht E).
  - cbn [negb]. destruct (Nat.leb_spec 2 (blink_count s)); [reflexivity|lia].
Qed.

(** C7.  A frame changes the blink counter only when a blink is detected
    and at least 0.5 s have passed since the last counted blink, and then
    by one; closed-eye frames at T0, T0 + 0.3 s and T0 + 0.6 s, the last
    counted blink being more than 0.5 s before T0, bring the counter of a
    blink challenge from 0 to exactly 2; a poll before the deadline that
    sees a counter of 2 or more passes the challenge; and with these three
    frames and such a poll the stage returns success. *)
Theorem C7_blink_counter_is_debounced
    (s : state) (T0 : Q) (f1 f2 f3 : frame) :
  (forall t f s0,
     blink_count (_analyze_frame t f s0) <> blink_count s0 ->
     detect_blink f = true
     /\ (5 # 10 <= t - last_blink_time s0)%Q
     /\ blink_count (_analyze_frame t f s0) = blink_count s0 + 1
     /\ last_blink_time (_analyze_frame t f s0) = t)
  /\ (forall start t evs s0,
        2 <= blink_count s0 -> (t - start < timeout)%Q ->
        face_poll blink start (Poll t :: evs) s0
        = Some (set_face_liveness true s0, evs))
  /\ (is_verifying s = true ->
      (last_blink_time s + (5 # 10) < T0)%Q ->
      detect_blink f1 = true -> detect_blink f2 = true ->
      detect_blink f3 = true ->
      let s0 :=
        set_face_liveness false
          (set_blink 0 (last_blink_time s)
             (set_current_challenge (Some (challenge_text blink)) s)) in
      let s1 := update_video_feed T0 f1 s0 in
      let s2 := update_video_feed (T0 + (3 # 10)) f2 s1 in
      let s3 := update_video_feed (T0 + (6 # 10)) f3 s2 in
      blink_count s1 = 1 /\ blink_count s2 = 1 /\ blink_count s3 = 2
      /\ _perform_face_liveness_challenge blink T0
           [Video T0 f1; Video (T0 + (3 # 10)) f2;
            Video (T0 + (6 # 10)) f3; Poll (T0 + (7 # 10))] s
         = Some (set_current_challenge None (set_face_liveness true s3),
                 true, [])).
Proof.
  split; [|split].
  - intros t f s0 H.
    destruct (analyze_frame_blink_cases t f s0)
      as [(Hd & Hg & Hc & Hl)|[Hc _]]; [|contradiction].
    repeat split; try assumption.
    apply Qlt_le_weak, Qgtb_lt. exact Hg.
  - intros start t evs s0. apply face_poll_blink_pass.
  - intros Hv Hlast H1 H2 H3 s0 s1 s2 s3.
    assert (C0 : counting 0 (last_blink_time s) s0)
      by (unfold counting, s0; simpl; auto).
    assert (C1 : counting 1 T0 s1)
      by (apply (counting_blink 0 (last_blink_time s)); assumption).
    assert (C2 : counting 1 T0 s2)
      by (apply counting_debounced; [exact C1|lra]).
    assert (C3 : counting 2 (T0 + (6 # 10)) s3)
      by (apply (counting_blink 1 T0); [exact C2|exact H3|lra]).
    split; [apply C1|]. split; [apply C2|]. split; [apply C3|].
    assert (E : face_poll blink T0
                  [Video T0 f1; Video (T0 + (3 # 10)) f2;
                   Video (T0 + (6 # 10)) f3; Poll (T0 + (7 # 10))] s0
                = Some (set_face_liveness true s3, [])).
    { change (face_poll blink T0 [Poll (T0 + (7 # 10))] s3
              = Some (set_face_liveness true s3, [])).
      apply face_poll_blink_pass.
      - destruct C3 as (_ & _ & -> & _). lia.
      - unfold timeout. lra. }
    change (match
              face_poll blink T0
                [Video T0 f1; Video (T0 + (3 # 10)) f2;
                 Video (T0 + (6 # 10)) f3; Poll (T0 + (7 # 10))] s0
            with
            | Some (x, rest) =>
                Some (set_current_challenge None x,
                      face_liveness
                        (verification_results (set_current_challenge None x)),
                      rest)
            | None => None
            end
            = Some (set_current_challenge None (set_face_liveness true s3),
                    true, [])).
    rewrite E. reflexivity.
Qed.

End Blink.

End VerifyFacts.

(** ** Dynamic time warping *)

Module DtwFacts.
Import LipSyncProcessor.

Lemma cell_min_nonneg (a b : cell) :
  nonneg_cell a -> nonneg_cell b -> nonneg_cell (cell_min a b).
Proof.
  destruct a as [x|], b as [y|]; simpl; auto.
  intros Hx Hy. apply Q.min_glb; assumption.
Qed.

Lemma cell_min_zero_r (a b : cell) :
  nonneg_cell a -> zero_cell b -> zero_cell (cell_min a b).
Proof.
  destruct a as [x|], b as [y|]; simpl; try tauto.
  intros Hx Hy. rewrite Q.min_r; [exact Hy|]. rewrite Hy. exact Hx.
Qed.

Lemma cell_add_nonneg (cost : Q) (c : cell) :
  (0 <= cost)%Q -> nonneg_cell c -> nonneg_cell (cell_add cost c).
Proof.
  destruct c as [x|]; simpl; auto. intros. lra.
Qed.

Lemma cell_add_zero (cost : Q) (c : cell) :
  (cost == 0)%Q -> zero_cell c -> zero_cell (cell_add cost c).
Proof.
  destruct c as [x|]; simpl; try tauto.
  intros H1 H2. rewrite H1, H2. reflexivity.
Qed.

Lemma zero_nonneg (c : cell) : zero_cell c -> nonneg_cell c.
Proof.
  destruct c as [x|]; simpl; auto. intros ->. apply Qle_refl.
Qed.

(** The inner loop body writes one cell. *)
Lemma dtw_cell_at (s1 s2 : list Q) (i j : nat) (t : table) :
  dtw_cell s1 s2 i j t i j
  = cell_add (Qabs (nth (i - 1) s1 0%Q - nth (j - 1) s2 0%Q))
      (min3 (t (i - 1) j) (t i (j - 1)) (t (i - 1) (j - 1))).
Proof.
  unfold dtw_cell, table_set. rewrite !Nat.eqb_refl. reflexivity.
Qed.

Lemma dtw_cell_other (s1 s2 : list Q) (i j a b : nat) (t : table) :
  a <> i \/ b <> j -> dtw_cell s1 s2 i j t a b = t a b.
Proof.
  intros H. unfold dtw_cell, table_set.
  destruct (Nat.eqb_spec a i), (Nat.eqb_spec b j); simpl; try reflexivity.
  lia.
Qed.

Lemma dtw_cell_nonneg (s1 s2 : list Q) (i j : nat) (t : table) :
  nonneg t -> nonneg (dtw_cell s1 s2 i j t).
Proof.
  intros H a b.
  destruct (Nat.eq_dec a i) as [->|Ha];
    [destruct (Nat.eq_dec b j) as [->|Hb]|].
  - rewrite dtw_cell_at. apply cell_add_nonneg; [apply Qabs_nonneg|].
    unfold min3. repeat apply cell_min_nonneg; apply H.
  - rewrite dtw_cell_other by auto. apply H.
  - rewrite dtw_cell_other by auto. apply H.
Qed.

Lemma dtw_row_nonneg (s1 s2 : list Q) (i : nat) (cols : list nat) :
  forall t, nonneg t -> nonneg (dtw_row s1 s2 cols i t).
Proof.
  unfold dtw_row. induction cols as [|j cols IH]; intros t H; simpl.
  - exact H.
  - apply IH, dtw_cell_nonneg, H.
Qed.

(** A row leaves the other rows, and the columns it does not visit, as
    they are. *)
Lemma dtw_row_other (s1 s2 : list Q) (i a b : nat) (cols : list nat) :
  forall t, a <> i \/ ~ In b cols -> dtw_row s1 s2 cols i t a b = t a b.
Proof.
  unfold dtw_row. induction cols as [|j cols IH]; intros t H; simpl.
  - reflexivity.
  - rewrite IH.
    + apply dtw_cell_other. destruct H as [H|H]; [left; exact H|].
      right. intros ->. apply H. left. reflexivity.
    + destruct H as [H|H]; [left; exact H|].
      right. intros Hin. apply H. right. exact Hin.
Qed.

(** On equal sequences, row [i] puts a zero on the diagonal when the
    diagonal cell above it is zero. *)
Lemma dtw_row_diagonal (s : list Q) (i m : nat) (t : table) :
  1 <= i <= m -> nonneg t -> zero_cell (t (i - 1) (i - 1)) ->
  zero_cell (dtw_row s s (seq 1 m) i t i i).
Proof.
  intros Hi Hn Hz.
  replace m with ((i - 1) + S (m - i)) by lia.
  rewrite seq_app. replace (1 + (i - 1)) with i by lia.
  cbn [seq]. unfold dtw_row. rewrite fold_left_app. cbn [fold_left].
  fold (dtw_row s s (seq 1 (i - 1)) i t).
  set (t1 := dtw_row s s (seq 1 (i - 1)) i t).
  fold (dtw_row s s (seq (S i) (m - i)) i (dtw_cell s s i i t1)).
  rewrite dtw_row_other.
  2:{ right. rewrite in_seq. lia. }
  rewrite dtw_cell_at.
  assert (Hn1 : nonneg t1) by (apply dtw_row_nonneg, Hn).
  apply cell_add_zero.
  - assert (E : (nth (i - 1) s 0 - nth (i - 1) s 0 == 0)%Q) by ring.
    rewrite E. reflexivity.
  - unfold min3. apply cell_min_zero_r.
    + apply cell_min_nonneg; apply Hn1.
    + unfold t1. rewrite dtw_row_other by (left; lia). exact Hz.
Qed.

(** After the rows 1..k, the table is not negative and its diagonal is
    zero down to row k. *)
Lemma dtw_fill_diagonal (s : list Q) (m k : nat) :
  k <= m ->
  let t := dtw_fill s s (seq 1 k) (seq 1 m) (table_set full_inf 0 0 (Fin 0)) in
  nonneg t /\ forall a, a <= k -> zero_cell (t a a).
Proof.
  induction k as [|k IH]; intros Hk t.
  - split.
    + intros a b. unfold t, dtw_fill, table_set, full_inf. simpl.
      destruct ((a =? 0) && (b =? 0)); simpl; auto. apply Qle_refl.
    + intros a Ha. replace a with 0 by lia. reflexivity.
  - destruct IH as [Hn Hd]; [lia|].
    assert (E : t = dtw_row s s (seq 1 m) (S k)
                      (dtw_fill s s (seq 1 k) (seq 1 m)
                         (table_set full_inf 0 0 (Fin 0)))).
    { unfold t, dtw_fill. rewrite seq_S, fold_left_app. reflexivity. }
    rewrite E. split.
    + apply dtw_row_nonneg, Hn.
    + intros a Ha. destruct (Nat.eq_dec a (S k)) as [->|Hne].
      * apply dtw_row_diagonal; [lia|exact Hn|].
        replace (S k - 1) with k by lia. apply Hd. lia.
      * rewrite dtw_row_other by (left; exact Hne). apply Hd. lia.
Qed.

(** C9.  The DTW distance of a non-empty sequence to itself is 0. *)
Theorem C9_dtw_self_distance_is_zero (s : list Q) :
  s <> [] ->
  exists q, dtw_alignment s s = Some (Fin q) /\ (q == 0)%Q.
Proof.
  intros Hs. unfold dtw_alignment.
  destruct (dtw_fill_diagonal s (length s) (length s) (le_n _)) as [_ Hd].
  specialize (Hd (length s) (le_n _)).
  destruct (dtw_fill s s _ _ _ (length s) (length s)) as [q|];
    [|contradiction].
  destruct s as [|x s]; [contradiction|]. simpl length.
  simpl in Hd. cbn [cell_div Nat.add].
  eexists. split; [reflexivity|]. rewrite Hd. reflexivity.
Qed.

End DtwFacts.

(** ** Sample runs *)

Module Checks.
Import CryptoUtils Verify LipSyncProcessor Samples VerifyFacts DtwFacts.
#[local] Existing Instance Reference.crypto.

(** The wallet and the hash of the signature test: what the code hashes
    and what the documented verifier hashes. *)
Lemma C4_witness :
  message_hash (C := Reference.crypto)
    (normalize_hash (hexdigest Reference.example_digest))
    (normalize_address (hexbytes_hex Reference.example_wallet))
  = Some (keccak
            (repeat x00 12 ++ Reference.example_wallet ++
             Reference.example_digest))
  /\ repeat x00 12 ++ Reference.example_wallet ++ Reference.example_digest
     <> solidity_packed Reference.example_wallet Reference.example_digest.
Proof.
  destruct (C4_message_hash_is_not_the_documented_packed_hash
              (C := Reference.crypto) false true
              Reference.example_wallet Reference.example_digest
              eq_refl eq_refl) as (H1 & H2 & _ & _ & H5 & _).
  cbv zeta in H1. rewrite H2 in H1, H5. split; [exact H1|exact H5].
Defined.

(** The three-digit hash [abc]. *)
Lemma C10_witness :
  normalize_hash (lit "abc") = lit "0x" ++ lit "abc" ++ repeat "0"%char 61
  /\ length (normalize_hash (lit "abc")) = 66.
Proof.
  assert (L : length (lit "abc") < 64) by (simpl; lia).
  pose proof (C10_short_hash_is_right_padded_and_signed
                (C := Reference.crypto) false (lit "abc")
                (hexbytes_hex Reference.example_wallet)
                Reference.example_key Reference.example_wallet
                example_account eq_refl L eq_refl eq_refl) as (H1 & H2 & _).
  split; [exact H1|exact H2].
Defined.

(** Stage 3 on three passed stages, and a whole run in which the smile
    is seen and the voice stage fails. *)
Lemma C1_witness :
  snd (_perform_final_verification alice backend all_passed) = true
  /\ (exists s' e,
        start_verification_process (S := Reference.signals 1) alice answered
          init = Some s'
        /\ db s' = [e]
        /\ log_overall_result e
           = log_face_liveness e && log_voice_match e && log_lip_sync e).
Proof.
  destruct (C1_verdict_is_conjunction_of_three_stages
              (S := Reference.signals 1) alice backend all_passed)
    as (Hv & _).
  destruct (C1_verdict_is_conjunction_of_three_stages
              (S := Reference.signals 1) alice backend init)
    as (_ & _ & _ & _ & _ & Hrun).
  split; [exact Hv|].
  destruct (Hrun answered _ eq_refl eq_refl) as (e & He & Ho).
  eexists _, e. split; [reflexivity|]. split; [exact He|exact Ho].
Defined.

(** C2 (the code at the failing input).  The same recording, in the same
    state, with the same enrolled data: the voice match is false when the
    random draw is 0.80 and true when it is 0.90. *)
Theorem C2_voice_match_is_decided_by_the_random_draw :
  let run sim :=
    fst (voice_analysis (S := Reference.signals 0) (Some [1%Q]) sim started) in
  voice_match (verification_results (run (80 # 100))) = false
  /\ voice_match (verification_results (run (90 # 100))) = true.
Proof.
  split; reflexivity.
Qed.

(** Stage 3 on three passed stages logs an attestation; the run in
    which the voice stage fails logs a failed verdict and empty strings. *)
Lemma C3_witness :
  (exists e,
     db (final_stage alice backend all_passed) = [e]
     /\ log_overall_result e = true /\ attested e)
  /\ (exists s' e,
        _verification_workflow (S := Reference.signals 1) alice answered
          started = Some s'
        /\ db s' = [e] /\ stage_failed e
        /\ log_overall_result e = false
        /\ log_hash_value e = [] /\ log_signature e = []).
Proof.
  destruct (C3_attestation_iff_verdict_pass (S := Reference.signals 1)
              alice backend all_passed)
    as ((e & He & Ho & Hiff & _) & _ & _).
  destruct (C3_attestation_iff_verdict_pass (S := Reference.signals 1)
              alice backend started)
    as (_ & _ & Hw).
  split.
  - exists e. split; [exact He|]. split; [exact Ho|].
    apply Hiff. exact Ho.
  - destruct (Hw answered _ eq_refl) as (e' & He' & _ & Hf).
    eexists _, e'. split; [reflexivity|]. split; [exact He'|].
    assert (Hs : stage_failed e').
    { injection He' as <-. right. right. reflexivity. }
    split; [exact Hs|]. exact (Hf Hs).
Defined.

(** A smile challenge, polls at 0, 4 and 8 s and no smile: the run ends
    with a failed face stage and never announces stage 2. *)
Lemma C5_counterexample :
  ~ (forall (C : Crypto) (S : Signals) (sess : session) (i : inputs)
            (s s' : state),
       _verification_workflow sess i s = Some s' ->
       face_liveness (verification_results s') = false ->
       In StageVoice (console s')).
Proof.
  intros H.
  specialize (H Reference.crypto (Reference.signals 1) alice unanswered
                started _ eq_refl eq_refl).
  simpl in H. destruct H as [H|[H|[]]]; discriminate H.
Qed.

(** The same run: the failure is reported and logged at once. *)
Lemma C5_witness :
  exists s',
    _verification_workflow (S := Reference.signals 1) alice unanswered started
    = Some s'
    /\ console s' = [StageFace; Failed (lit "Face liveness challenge failed")]
    /\ db s' = [mkLog (lit "alice") false false false false [] []].
Proof.
  pose proof (C5_failed_face_stage_ends_the_session
                (S := Reference.signals 1) alice unanswered started _ _
                eq_refl) as (Hw & Hc & _ & _ & _ & v & l & Hdb).
  eexists. split; [exact Hw|]. split; [exact Hc|]. reflexivity.
Defined.

(** Ten buffered lip frames and a correlation of 1: the lip-sync result
    is a failure, although the correlation is above the threshold. *)
Lemma C6_counterexample :
  ~ (forall (S : Signals) (audio : list Q) (s : state),
       10 <= length (lip_sequence s) ->
       match lip_audio_correlation (lip_sequence s) audio with
       | Some c =>
           lip_sync (verification_results (lip_sync_analysis audio s))
           = Qgtb (Qabs c) Config.LIP_SYNC_THRESHOLD
       | None => True
       end).
Proof.
  intros H.
  specialize (H (Reference.signals 1) [1%Q] (with_lip_frames 10) (le_n 10)).
  discriminate H.
Qed.

(** Eleven frames run the correlation; ten do not. *)
Lemma C6_witness :
  lip_sync_analysis (S := Reference.signals 1) [1%Q] (with_lip_frames 11)
  = set_lip_sync true (say (LipSyncCorrelation 1) (with_lip_frames 11))
  /\ lip_sync_analysis (S := Reference.signals 1) [1%Q] (with_lip_frames 10)
     = set_lip_sync false (say InsufficientLipData (with_lip_frames 10)).
Proof.
  split.
  - exact (proj1 (C6_lip_sync_needs_more_than_ten_frames
                    (S := Reference.signals 1) [1%Q] (with_lip_frames 11))
             (le_n 11)).
  - exact (proj2 (C6_lip_sync_needs_more_than_ten_frames
                    (S := Reference.signals 1) [1%Q] (with_lip_frames 10))
             (le_n 10)).
Defined.

(** Closed eyes at 1000 s, 1000.3 s and 1000.6 s, polled at 1000.7 s. *)
Lemma C7_witness :
  let s0 :=
    set_face_liveness false
      (set_blink 0 0
         (set_current_challenge (Some (challenge_text blink)) started)) in
  let s1 := update_video_feed 1000 closed_eyes s0 in
  let s2 := update_video_feed (1000 + (3 # 10)) closed_eyes s1 in
  let s3 := update_video_feed (1000 + (6 # 10)) closed_eyes s2 in
  (detect_blink closed_eyes = true
   /\ (5 # 10 <= 1000 - last_blink_time s0)%Q)
  /\ face_poll blink 1000 [Poll (1000 + (7 # 10))] s3
     = Some (set_face_liveness true s3, [])
  /\ blink_count s1 = 1 /\ blink_count s2 = 1 /\ blink_count s3 = 2
  /\ _perform_face_liveness_challenge blink 1000
       [Video 1000 closed_eyes; Video (1000 + (3 # 10)) closed_eyes;
        Video (1000 + (6 # 10)) closed_eyes; Poll (1000 + (7 # 10))] started
     = Some (set_current_challenge None (set_face_liveness true s3), true, []).
Proof.
  intros s0 s1 s2 s3.
  destruct (C7_blink_counter_is_debounced started 1000
              closed_eyes closed_eyes closed_eyes) as (Hc & Hp & Hrun).
  split; [|split].
  - assert (Hne : blink_count (_analyze_frame 1000 closed_eyes s0)
                  <> blink_count s0) by discriminate.
    destruct (Hc 1000%Q closed_eyes s0 Hne) as (Hd & Ht & _).
    split; [exact Hd|exact Ht].
  - apply Hp; [apply le_n|reflexivity].
  - exact (Hrun eq_refl eq_refl eq_refl eq_refl eq_refl).
Defined.

(** The address of the signature test that holds an ['H'] cannot be
    decoded; the fallback signature still has the Ethereum format. *)
Lemma C8_counterexample :
  ~ (forall (C : Crypto) (h a k : str),
       ethereum_signature_try (normalize_hash h) (normalize_address a) k
       = None ->
       is_ethereum_format (generate_ethereum_signature h a k) = false).
Proof.
  intros H.
  specialize (H Reference.crypto (hexdigest Reference.example_digest)
                Reference.example_bad_address Reference.example_key eq_refl).
  vm_compute in H. discriminate H.
Qed.

(** A hashing failure with a key that loads, and a key that does not
    load. *)
Lemma C8_witness :
  let h := hexdigest Reference.example_digest in
  (ethereum_signature_try (normalize_hash h)
     (normalize_address Reference.example_bad_address) Reference.example_key
   = None
   /\ length (generate_ethereum_signature h Reference.example_bad_address
                Reference.example_key) = 132)
  /\ (ethereum_signature_try (normalize_hash h)
        (normalize_address (hexbytes_hex Reference.example_wallet))
        (lit "0xnokey") = None
      /\ length (generate_ethereum_signature h
                   (hexbytes_hex Reference.example_wallet) (lit "0xnokey"))
         = 66).
Proof.
  intros h. split.
  - split; [reflexivity|].
    destruct (C8_signing_failure_falls_back_to_simple_signature
                h Reference.example_bad_address Reference.example_key eq_refl)
      as (_ & Hsig & _).
    exact (proj1 (proj2 (Hsig example_account _ eq_refl eq_refl))).
  - assert (Htry : ethereum_signature_try (normalize_hash h)
                     (normalize_address (hexbytes_hex Reference.example_wallet))
                     (lit "0xnokey") = None) by reflexivity.
    split; [exact Htry|].
    destruct (C8_signing_failure_falls_back_to_simple_signature
                h (hexbytes_hex Reference.example_wallet) (lit "0xnokey")
                Htry)
      as (_ & _ & Hnone & _).
    exact (proj1 (Hnone (or_introl eq_refl))).
Defined.

(** The sequence 1, 2, 5. *)
Lemma C9_witness :
  exists q, dtw_alignment [1; 2; 5]%Q [1; 2; 5]%Q = Some (Fin q) /\ (q == 0)%Q.
Proof.
  apply (C9_dtw_self_distance_is_zero [1; 2; 5]%Q). discriminate.
Defined.

End Checks.

(** * Further properties of the code *)

(** ** The signer on unusual inputs *)

Module SignerFacts.
Import CryptoUtils.

Section WithCrypto.
Context {C : Crypto}.

Lemma length_rjust {A} (s : list A) (w : nat) (c : A) :
  length (rjust s w c) = Nat.max w (length s).
Proof.
  unfold rjust. rewrite length_app, repeat_length. lia.
Qed.

(** X2.  An address of at most 40 hexadecimal digits, with or without
    [0x], is accepted and extended with ['0'] digits on the left: it
    decodes to the same 20 bytes as the full 40-digit address, and these
    are what is hashed (a short hash, in contrast, is extended on the
    right). *)
Theorem X2_short_address_is_left_padded (p : bool) (a h : str) :
  hex_string a = true -> length a <= 40 ->
  let full := repeat "0"%char (40 - length a) ++ a in
  exists ab,
    fromhex full = Some ab /\ length ab = 20
    /\ message_hash h (normalize_address (with_prefix p a))
       = message_hash h (lit "0x" ++ full)
    /\ message_hash h (normalize_address (with_prefix p a))
       = match fromhex (rjust (skipn 2 h) 64 "0"%char) with
         | Some hb => Some (keccak (repeat x00 12 ++ ab ++ hb))
         | None => None
         end.
Proof.
  intros Ha La full.
  assert (Hfull : hex_string full = true).
  { unfold full. rewrite hex_string_app, hex_string_zeros, Ha. reflexivity. }
  assert (Lfull : length full = 2 * 20).
  { unfold full. rewrite length_app, repeat_length. lia. }
  destruct (fromhex_hex_string 20 full Hfull Lfull) as (ab & Hab & Lab).
  exists ab. split; [exact Hab|]. split; [exact Lab|].
  rewrite normalize_address_digits by exact Ha.
  unfold message_hash.
  change (skipn 2 (lit "0x" ++ a)) with a.
  change (skipn 2 (lit "0x" ++ full)) with full.
  rewrite (rjust_full full) by lia.
  change (rjust a 40 "0"%char) with full. rewrite Hab.
  split; [reflexivity|].
  destruct (fromhex (rjust (skipn 2 h) 64 "0"%char)); [|reflexivity].
  unfold rjust. rewrite Lab, <- app_assoc. reflexivity.
Qed.

(** X3.  Inputs that are too long are neither rejected nor cut: an
    address of 2j >= 40 digits and a hash of 2k >= 64 digits are decoded
    whole, and the hashed buffer has max(32, j) + k bytes.  It has more
    than the 64 bytes of (address, bytes32) exactly when the hash has
    more than 32 bytes or the address more than 32 bytes; an address of
    21 to 32 bytes is absorbed by the padding. *)
Theorem X3_long_inputs_are_hashed_whole (p1 p2 : bool) (a h : str)
    (j k : nat) :
  hex_string a = true -> hex_string h = true ->
  length a = 2 * j -> length h = 2 * k -> 20 <= j -> 32 <= k ->
  exists ab hb,
    fromhex a = Some ab /\ fromhex h = Some hb
    /\ length ab = j /\ length hb = k
    /\ message_hash (normalize_hash (with_prefix p1 h))
         (normalize_address (with_prefix p2 a))
       = Some (keccak (rjust ab 32 x00 ++ hb))
    /\ length (rjust ab 32 x00 ++ hb) = Nat.max 32 j + k
    /\ (64 < length (rjust ab 32 x00 ++ hb) <-> 32 < j \/ 32 < k).
Proof.
  intros Ha Hh La Lh Hj Hk.
  destruct (fromhex_hex_string j a Ha La) as (ab & Hab & Lab).
  destruct (fromhex_hex_string k h Hh Lh) as (hb & Hhb & Lhb).
  exists ab, hb. repeat (split; [assumption|]).
  rewrite normalize_hash_digits by exact Hh.
  rewrite normalize_address_digits by exact Ha.
  replace (64 - length h) with 0 by lia. rewrite app_nil_r.
  assert (L : length (rjust ab 32 x00 ++ hb) = Nat.max 32 j + k).
  { rewrite length_app, length_rjust, Lab, Lhb. reflexivity. }
  split; [|split; [exact L|rewrite L; lia]].
  unfold message_hash.
  change (skipn 2 (lit "0x" ++ a)) with a.
  change (skipn 2 (lit "0x" ++ h)) with h.
  rewrite !rjust_full by lia. rewrite Hab, Hhb. reflexivity.
Qed.

(** X4.  [sign_data] with a string key that does not start with [0x]
    never signs: whatever the key, it returns the tag [legacy_signature_]
    followed by the 32 digits of an MD5 digest, 49 characters in all. *)
Theorem X4_sign_data_unprefixed_key_is_legacy_tag (key data wallet : str) :
  startswith key (lit "0x") = false ->
  sign_data (KeyStr key) data wallet
  = lit "legacy_signature_" ++ hexdigest (md5 (encode (data ++ wallet)))
  /\ length (sign_data (KeyStr key) data wallet) = 49
  /\ is_ethereum_format (sign_data (KeyStr key) data wallet) = false.
Proof.
  intros Hk. unfold sign_data. rewrite Hk.
  split; [reflexivity|].
  unfold is_ethereum_format.
  rewrite length_app, length_hexdigest, md5_length. split; reflexivity.
Qed.

End WithCrypto.
End SignerFacts.

(** ** The face stage and the workflow *)

Module LivenessFacts.
Import CryptoUtils Verify Liveness VerifyFacts.

(** What a frame does under each challenge text. *)
Lemma analyze_liveness_challenge (c : challenge_type) (t : Q) (f : frame)
    (s : state) :
  current_challenge s = Some (challenge_text c) ->
  analyze_liveness t f s
  = if is_blink c then
      if detect_blink f && Qgtb (t - last_blink_time s) (5 # 10)
      then set_blink (blink_count s + 1) t s else s
    else if answers c f then set_face_liveness true s else s.
Proof.
  intros H. unfold analyze_liveness. rewrite H.
  destruct c; cbn [is_blink answers];
    try reflexivity.
  change (truthy (Some (challenge_text blink)))
    with (Some (challenge_text blink)).
  change (contains (lit "blink") (lower (challenge_text blink))) with true.
  cbv iota. destruct (detect_blink f); reflexivity.
Qed.

(** X7.  A head challenge does not check the direction: under each of
    the three head prompts a frame sets [face_liveness] exactly when the
    absolute yaw or the absolute pitch exceeds 15 degrees, so the frame
    and its mirror image (yaw negated) are treated alike, and a turn to
    the right answers "turn your head left". *)
Theorem X7_head_challenges_ignore_direction
    (c : challenge_type) (t : Q) (f : frame) (s : state) :
  c = head_left \/ c = head_right \/ c = head_up ->
  current_challenge s = Some (challenge_text c) ->
  let mirrored :=
    mkFrame (left_ear f) (right_ear f) (smile_ratio f) (- yaw f) (pitch f)
      (lip_features f) in
  face_liveness (verification_results (analyze_liveness t f s))
  = face_liveness (verification_results s) || head_moved f
  /\ analyze_liveness t mirrored s = analyze_liveness t f s.
Proof.
  intros Hc Hs mirrored.
  assert (Ho : Qabs (- yaw f) = Qabs (yaw f)).
  { destruct (yaw f) as [n d]. unfold Qabs, Qopp. cbn [Qnum Qden].
    rewrite Z.abs_opp. reflexivity. }
  assert (Hm : head_moved mirrored = head_moved f).
  { unfold head_moved, mirrored. cbn [yaw pitch]. rewrite Ho. reflexivity. }
  rewrite !(analyze_liveness_challenge c) by exact Hs.
  destruct Hc as [-> | [-> | ->]]; cbn [is_blink answers]; rewrite Hm;
    destruct (head_moved f); simpl;
    rewrite ?orb_true_r, ?orb_false_r; split; reflexivity.
Qed.

(** *** The deadline *)

Lemma Qltb_false_le (a b : Q) : Qltb a b = false -> (b <= a)%Q.
Proof.
  unfold Qltb. intros H. apply Qle_bool_iff.
  destruct (Qle_bool b a); [reflexivity|discriminate].
Qed.

Lemma Qltb_true_lt (a b : Q) : Qltb a b = true -> (a < b)%Q.
Proof.
  intros H. apply Qgtb_lt. exact H.
Qed.

(** A loop that ends with [face_liveness] false ended at a late poll, and
    all polls before it were early. *)
Lemma face_poll_fails_at_deadline (c : challenge_type) (start : Q)
    (evs : list event) :
  forall s s' rest,
    face_poll c start evs s = Some (s', rest) ->
    face_liveness (verification_results s') = false ->
    exists pre t,
      evs = pre ++ Poll t :: rest
      /\ (timeout <= t - start)%Q
      /\ forall t', In (Poll t') pre -> (t' - start < timeout)%Q.
Proof.
  induction evs as [|[t f|t] evs IH]; intros s s' rest H Hf;
    cbn [face_poll] in H.
  - discriminate.
  - destruct (IH _ _ _ H Hf) as (pre & t0 & -> & Ht0 & Hpre).
    exists (Video t f :: pre), t0. split; [reflexivity|].
    split; [exact Ht0|].
    intros t' [E|Hin]; [discriminate E|]. apply Hpre, Hin.
  - destruct (Qltb (t - start) timeout) eqn:Ht.
    + destruct (is_blink c && (2 <=? blink_count s)).
      { injection H as <- _. simpl in Hf. discriminate. }
      destruct (negb (is_blink c) && face_liveness (verification_results s))
        eqn:Hb.
      { injection H as <- _. apply andb_prop in Hb as [_ Hb]. congruence. }
      destruct (IH _ _ _ H Hf) as (pre & t0 & -> & Ht0 & Hpre).
      exists (Poll t :: pre), t0. split; [reflexivity|].
      split; [exact Ht0|].
      intros t' [E|Hin]; [|apply Hpre, Hin].
      injection E as <-. apply Qltb_true_lt, Ht.
    + injection H as <- <-. exists [], t. split; [reflexivity|].
      split; [apply Qltb_false_le, Ht|]. intros t' [].
Qed.

(** The loop stops at the first late poll at the latest. *)
Lemma face_poll_stops (c : challenge_type) (start : Q) (evs : list event) :
  forall s,
    existsb (is_late_poll start) evs = true ->
    exists s' rest, face_poll c start evs s = Some (s', rest).
Proof.
  induction evs as [|[t f|t] evs IH]; intros s H; cbn [face_poll].
  - discriminate.
  - apply IH. exact H.
  - cbn [existsb is_late_poll] in H.
    destruct (Qltb (t - start) timeout).
    + destruct (is_blink c && (2 <=? blink_count s)); [eauto|].
      destruct (negb (is_blink c) && face_liveness (verification_results s));
        [eauto|].
      apply IH. exact H.
    + eauto.
Qed.

(** X8.  The face stage fails only at its deadline: when it returns
    False, the loop was ended by a poll at least 8 s after the start, and
    every earlier poll was within the 8 s; and the stage always returns
    once such a late poll arrives. *)
Theorem X8_face_stage_fails_only_at_deadline
    (c : challenge_type) (start : Q) (evs : list event) (s : state) :
  (forall s' rest,
     _perform_face_liveness_challenge c start evs s = Some (s', false, rest) ->
     exists pre t,
       evs = pre ++ Poll t :: rest
       /\ (8 <= t - start)%Q
       /\ forall t', In (Poll t') pre -> (t' - start < 8)%Q)
  /\ (existsb (is_late_poll start) evs = true ->
      exists s' ok rest,
        _perform_face_liveness_challenge c start evs s = Some (s', ok, rest)).
Proof.
  split.
  - intros s' rest H. unfold _perform_face_liveness_challenge in H.
    destruct (face_poll c start evs _) as [[s1 r1]|] eqn:Hp; [|discriminate].
    injection H as _ Hf <-. simpl in Hf.
    exact (face_poll_fails_at_deadline c start evs _ _ _ Hp Hf).
  - intros H. unfold _perform_face_liveness_challenge.
    destruct (face_poll_stops c start evs
                (set_face_liveness false
                   (set_blink 0 (last_blink_time s)
                      (set_current_challenge (Some (challenge_text c)) s))) H)
      as (s1 & r1 & Hp).
    cbv zeta. cbn [last_blink_time set_current_challenge] in *.
    rewrite Hp. eauto.
Qed.

(** *** What a passed face stage has seen *)




End LivenessFacts.

Module WorkflowFacts.
Import CryptoUtils Verify VerifyFacts.

Section WithLibraries.
Context {C : Crypto} {S : Signals}.

(** X6.  No run of the workflow reaches Pass: [audio_buffer] is emptied
    and never filled, so [_analyze_frame] buffers no lip frame, the
    lip-sync result is always a failure, and every run that ends logs
    one entry with verdict false, an empty hash and an empty signature,
    and leaves the object idle. *)
Theorem X6_no_run_of_the_workflow_reaches_pass
    (sess : session) (i : inputs) (s s' : state) :
  _verification_workflow sess i s = Some s' ->
  is_verifying s' = false
  /\ exists f v l,
       db s' = db s ++ [mkLog (user_id sess) f v l false [] []].
Proof.
  unfold _verification_workflow. intros H.
  destruct (_perform_face_liveness_challenge _ _ _ _)
    as [[[s1 ok] rest]|] eqn:Hface; [|discriminate].
  apply face_challenge_quiet in Hface as (Hdb & _ & Hok). simpl in Hdb.
  injection H as <-. split; [reflexivity|].
  destruct ok; simpl negb; cbv iota.
  - pose proof (voice_challenge_never_passes (voice_frames i) (recording i)
                  (voice_similarity i) (say StageVoice s1)) as Hnever.
    pose proof (voice_challenge_db (voice_frames i) (recording i)
                  (voice_similarity i) (say StageVoice s1)) as Hdb2.
    destruct (_perform_voice_challenge _ _ _ _) as [s2 ok2] eqn:Hvoice.
    cbn [fst snd] in Hnever, Hdb2. subst ok2. simpl negb. cbv iota.
    eexists _, _, _. simpl. rewrite Hdb2. simpl. rewrite Hdb. reflexivity.
  - eexists _, _, _. simpl. rewrite Hdb. reflexivity.
Qed.

End WithLibraries.
End WorkflowFacts.

(** ** More on dynamic time warping *)

Module DtwTable.
Import LipSyncProcessor Dtw DtwFacts.

(** One row: the other rows, column 0 and the columns beyond [m] are left
    alone, and each cell of the row holds the recurrence over the values
    the table has when the row is done. *)
Lemma dtw_row_recurrence (s1 s2 : list Q) (i : nat) (t : table) (m : nat) :
  1 <= i ->
  let t' := dtw_row s1 s2 (seq 1 m) i t in
  (forall a b, a <> i \/ b = 0 \/ m < b -> t' a b = t a b)
  /\ forall j, 1 <= j <= m ->
       t' i j = cell_add (step_cost s1 s2 i j)
                  (min3 (t (i - 1) j) (t' i (j - 1)) (t (i - 1) (j - 1))).
Proof.
  intros Hi. induction m as [|m IH]; intros t'.
  - split; [reflexivity|]. intros j Hj. lia.
  - destruct IH as [Hother Hrec].
    assert (E : t' = dtw_cell s1 s2 i (S m) (dtw_row s1 s2 (seq 1 m) i t)).
    { unfold t', dtw_row. rewrite seq_S, fold_left_app. reflexivity. }
    set (tm := dtw_row s1 s2 (seq 1 m) i t) in *.
    split.
    + intros a b Hab. rewrite E, dtw_cell_other by lia.
      apply Hother. lia.
    + intros j Hj. rewrite E.
      destruct (Nat.eq_dec j (S m)) as [->|Hne].
      * rewrite dtw_cell_at.
        rewrite (dtw_cell_other s1 s2 i (S m) i (S m - 1)) by lia.
        rewrite !(Hother (i - 1)) by lia. reflexivity.
      * rewrite dtw_cell_other by lia.
        rewrite (dtw_cell_other s1 s2 i (S m) i (j - 1)) by lia.
        apply Hrec. lia.
Qed.

Lemma dtw_fill_recurrence (s1 s2 : list Q) (m n : nat) :
  let t := dtw_fill s1 s2 (seq 1 n) (seq 1 m)
             (table_set full_inf 0 0 (Fin 0)) in
  (forall a b,
     a = 0 \/ b = 0 \/ n < a \/ m < b ->
     t a b = table_set full_inf 0 0 (Fin 0) a b)
  /\ forall i j, 1 <= i <= n -> 1 <= j <= m ->
       t i j = cell_add (step_cost s1 s2 i j)
                 (min3 (t (i - 1) j) (t i (j - 1)) (t (i - 1) (j - 1))).
Proof.
  induction n as [|n IH]; intros t.
  - split; [reflexivity|]. intros i j Hi. lia.
  - destruct IH as [Hborder Hrec].
    set (tn := dtw_fill s1 s2 (seq 1 n) (seq 1 m)
                 (table_set full_inf 0 0 (Fin 0))) in *.
    assert (E : t = dtw_row s1 s2 (seq 1 m) (S n) tn).
    { unfold t, tn, dtw_fill. rewrite seq_S, fold_left_app. reflexivity. }
    destruct (dtw_row_recurrence s1 s2 (S n) tn m) as [Hother Hrow]; [lia|].
    cbv zeta in Hother, Hrow. rewrite <- E in Hother, Hrow.
    split.
    + intros a b Hab.
      destruct (Nat.eq_dec a (S n)) as [->|Hne].
      * rewrite Hother by lia. apply Hborder. lia.
      * rewrite Hother by lia. apply Hborder. lia.
    + intros i j Hi Hj.
      destruct (Nat.eq_dec i (S n)) as [->|Hne].
      * rewrite (Hrow j Hj).
        rewrite <- !(Hother (S n - 1)) by lia. reflexivity.
      * rewrite !(Hother i), !(Hother (i - 1)) by lia.
        apply Hrec; lia.
Qed.

(** The finished table of [dtw_alignment]. *)
Lemma dtw_table_recurrence (seq1 seq2 : list Q) :
  let t := dtw_table seq1 seq2 in
  t 0 0 = Fin 0
  /\ (forall i j,
        1 <= i + j -> i = 0 \/ j = 0 \/ length seq1 < i \/ length seq2 < j ->
        t i j = Inf)
  /\ forall i j, 1 <= i <= length seq1 -> 1 <= j <= length seq2 ->
       t i j = cell_add (step_cost seq1 seq2 i j)
                 (min3 (t (i - 1) j) (t i (j - 1)) (t (i - 1) (j - 1))).
Proof.
  intros t.
  destruct (dtw_fill_recurrence seq1 seq2 (length seq2) (length seq1))
    as [Hborder Hrec].
  fold (dtw_table seq1 seq2) in Hborder, Hrec. fold t in Hborder, Hrec.
  split; [rewrite Hborder by lia; reflexivity|].
  split; [|exact Hrec].
  intros i j Hij Hout. rewrite Hborder by lia. unfold table_set, full_inf.
  destruct i; [destruct j; [lia|reflexivity]|reflexivity].
Qed.

(** X10.  When the two loops are done, the table holds the DTW
    recurrence: 0 at (0,0), infinity on the rest of row 0 and column 0
    and outside the n x m block, and in every cell (i,j) of the block the
    cost |seq1[i-1] - seq2[j-1]| plus the least of the three neighbours
    (i-1,j), (i,j-1), (i-1,j-1) of the finished table; no cell is
    overwritten after the cells that depend on it were computed. *)
Theorem X10_dtw_table_holds_the_recurrence (seq1 seq2 : list Q) :
  let t := dtw_table seq1 seq2 in
  t 0 0 = Fin 0
  /\ (forall j, 1 <= j -> t 0 j = Inf)
  /\ (forall i, 1 <= i -> t i 0 = Inf)
  /\ (forall i j, length seq1 < i \/ length seq2 < j -> t i j = Inf)
  /\ forall i j, 1 <= i <= length seq1 -> 1 <= j <= length seq2 ->
       t i j = cell_add (step_cost seq1 seq2 i j)
                 (min3 (t (i - 1) j) (t i (j - 1)) (t (i - 1) (j - 1))).
Proof.
  intros t. destruct (dtw_table_recurrence seq1 seq2) as (H0 & Hinf & Hrec).
  fold t in H0, Hinf, Hrec.
  split; [exact H0|].
  split; [intros j Hj; apply Hinf; lia|].
  split; [intros i Hi; apply Hinf; lia|].
  split; [intros i j Hij; apply Hinf; lia|].
  exact Hrec.
Qed.

(** *** Empty and non-empty inputs *)

Lemma dtw_fill_nonneg (s1 s2 : list Q) (rows cols : list nat) :
  forall t, nonneg t -> nonneg (dtw_fill s1 s2 rows cols t).
Proof.
  unfold dtw_fill. induction rows as [|i rows IH]; intros t H; simpl.
  - exact H.
  - apply IH, dtw_row_nonneg, H.
Qed.

Lemma dtw_table_nonneg (s1 s2 : list Q) : nonneg (dtw_table s1 s2).
Proof.
  apply dtw_fill_nonneg. intros a b. unfold table_set, full_inf.
  destruct ((a =? 0) && (b =? 0)); simpl; auto. apply Qle_refl.
Qed.

Lemma min3_finite (a b c : cell) :
  finite a \/ finite b \/ finite c -> finite (min3 a b c).
Proof.
  destruct a, b, c; simpl; tauto.
Qed.

Lemma cell_add_finite (q : Q) (c : cell) : finite c -> finite (cell_add q c).
Proof.
  destruct c; simpl; tauto.
Qed.

(** In exact arithmetic every cell of the block is finite. *)
Lemma dtw_table_finite (s1 s2 : list Q) :
  forall i j, 1 <= i <= length s1 -> 1 <= j <= length s2 ->
  finite (dtw_table s1 s2 i j).
Proof.
  destruct (dtw_table_recurrence s1 s2) as (H0 & _ & Hrec).
  cbv zeta in *.
  assert (Hstep : forall i j, 1 <= i <= length s1 -> 1 <= j <= length s2 ->
            finite (dtw_table s1 s2 (i - 1) j)
            \/ finite (dtw_table s1 s2 i (j - 1))
            \/ finite (dtw_table s1 s2 (i - 1) (j - 1)) ->
            finite (dtw_table s1 s2 i j)).
  { intros i j Hi Hj H. rewrite Hrec by assumption.
    apply cell_add_finite, min3_finite, H. }
  intros i. induction i as [|i IHi]; intros j Hi Hj; [lia|].
  destruct i as [|i].
  - induction j as [|j IHj]; [lia|].
    destruct j as [|j].
    + apply Hstep; try lia. right. right. simpl. rewrite H0. exact I.
    + apply Hstep; try lia. right. left.
      replace (S (S j) - 1) with (S j) by lia. apply IHj. lia.
  - apply Hstep; try lia. left.
    replace (S (S i) - 1) with (S i) by lia. apply IHi; lia.
Qed.

(** X11.  On empty input [dtw_alignment] does not fail but returns a
    non-number: [nan] (0.0 / 0) when both sequences are empty, and
    infinity when exactly one of them is. *)
Theorem X11_dtw_of_empty_sequences (s : list Q) :
  dtw_alignment [] [] = None
  /\ (s <> [] ->
      dtw_alignment s [] = Some Inf /\ dtw_alignment [] s = Some Inf).
Proof.
  split; [reflexivity|]. intros Hs.
  destruct s as [|x s]; [contradiction|].
  unfold dtw_alignment. split.
  - fold (dtw_table (x :: s) []).
    destruct (dtw_table_recurrence (x :: s) []) as (_ & Hinf & _).
    cbv zeta in Hinf. rewrite Hinf by (simpl; lia). reflexivity.
  - fold (dtw_table [] (x :: s)).
    destruct (dtw_table_recurrence [] (x :: s)) as (_ & Hinf & _).
    cbv zeta in Hinf. rewrite Hinf by (simpl; lia). reflexivity.
Qed.

(** X12.  For two non-empty sequences the result is a number (not
    [nan]) and is not negative.  In exact arithmetic it is finite as well;
    with doubles the sums can overflow to infinity, which the statement
    allows. *)
Theorem X12_dtw_is_a_number_and_not_negative (seq1 seq2 : list Q) :
  seq1 <> [] -> seq2 <> [] ->
  exists c, dtw_alignment seq1 seq2 = Some c /\ nonneg_cell c.
Proof.
  intros H1 H2.
  assert (L1 : 1 <= length seq1) by (destruct seq1; [contradiction|simpl; lia]).
  unfold dtw_alignment. fold (dtw_table seq1 seq2).
  pose proof (dtw_table_nonneg seq1 seq2 (length seq1) (length seq2)) as Hpos.
  destruct (length seq1 + length seq2) as [|k] eqn:Hk; [lia|].
  destruct (dtw_table seq1 seq2 (length seq1) (length seq2)) as [q|];
    (eexists; split; [reflexivity|]); [|exact I].
  simpl in Hpos. cbn [nonneg_cell].
  apply Qle_shift_div_l.
  - change 0%Q with (inject_Z 0). rewrite <- Zlt_Qlt. lia.
  - rewrite Qmult_0_l. exact Hpos.
Qed.

(** *** Symmetry *)

Lemma cell_eq_refl (a : cell) : cell_eq a a.
Proof.
  destruct a; simpl; [reflexivity|exact I].
Qed.

Lemma cell_min_comm (a b : cell) : cell_eq (cell_min a b) (cell_min b a).
Proof.
  destruct a, b; simpl; try reflexivity; try exact I. apply Q.min_comm.
Qed.

Lemma cell_min_compat (a a' b b' : cell) :
  cell_eq a a' -> cell_eq b b' ->
  cell_eq (cell_min a b) (cell_min a' b').
Proof.
  destruct a, a', b, b'; simpl; try tauto.
  intros H1 H2. rewrite H1, H2. reflexivity.
Qed.

Lemma cell_eq_trans (a b c : cell) :
  cell_eq a b -> cell_eq b c -> cell_eq a c.
Proof.
  destruct a, b, c; simpl; try tauto. intros H1 H2. rewrite H1. exact H2.
Qed.

Lemma min3_swap (a b c a' b' c' : cell) :
  cell_eq a a' -> cell_eq b b' -> cell_eq c c' ->
  cell_eq (min3 a b c) (min3 b' a' c').
Proof.
  intros Ha Hb Hc. unfold min3. apply cell_min_compat; [|exact Hc].
  apply (cell_eq_trans _ (cell_min b a)); [apply cell_min_comm|].
  apply cell_min_compat; assumption.
Qed.

Lemma cell_add_compat (q q' : Q) (c c' : cell) :
  (q == q')%Q -> cell_eq c c' -> cell_eq (cell_add q c) (cell_add q' c').
Proof.
  destruct c, c'; simpl; try tauto. intros H1 H2. rewrite H1, H2. reflexivity.
Qed.

Lemma step_cost_swap (s1 s2 : list Q) (i j : nat) :
  (step_cost s1 s2 i j == step_cost s2 s1 j i)%Q.
Proof.
  unfold step_cost. rewrite Qabs_Qminus. reflexivity.
Qed.

(** The table of (seq2, seq1) is the transpose of the table of
    (seq1, seq2). *)
Lemma dtw_table_transpose (s1 s2 : list Q) (k : nat) :
  forall i j, i + j <= k -> i <= length s1 -> j <= length s2 ->
  cell_eq (dtw_table s1 s2 i j) (dtw_table s2 s1 j i).
Proof.
  destruct (dtw_table_recurrence s1 s2) as (H0 & Hinf & Hrec).
  destruct (dtw_table_recurrence s2 s1) as (H0' & Hinf' & Hrec').
  cbv zeta in *.
  induction k as [|k IH]; intros i j Hk Hi Hj.
  - replace i with 0 by lia. replace j with 0 by lia.
    rewrite H0, H0'. reflexivity.
  - destruct (Nat.eq_dec i 0) as [->|Hi0];
      [destruct (Nat.eq_dec j 0) as [->|Hj0]
      |destruct (Nat.eq_dec j 0) as [->|Hj0]].
    + rewrite H0, H0'. reflexivity.
    + rewrite Hinf, Hinf' by lia. exact I.
    + rewrite Hinf, Hinf' by lia. exact I.
    + rewrite Hrec, Hrec' by lia.
      apply cell_add_compat; [apply step_cost_swap|].
      apply min3_swap; apply IH; lia.
Qed.

(** X13.  On sequences of finite numbers the distance is symmetric:
    [dtw_alignment seq1 seq2] and [dtw_alignment seq2 seq1] are the same
    number (or both [nan], or both infinite).  The proof uses of the
    arithmetic only that |a - b| = |b - a| and that the least of three
    numbers does not depend on their order; an unsigned integer dtype
    breaks the first, a [nan] element the second. *)
Theorem X13_dtw_is_symmetric (seq1 seq2 : list Q) :
  result_eq (dtw_alignment seq1 seq2) (dtw_alignment seq2 seq1).
Proof.
  unfold dtw_alignment. fold (dtw_table seq1 seq2). fold (dtw_table seq2 seq1).
  pose proof (dtw_table_transpose seq1 seq2 (length seq1 + length seq2)
                (length seq1) (length seq2) (le_n _) (le_n _) (le_n _)) as H.
  rewrite (Nat.add_comm (length seq2) (length seq1)).
  destruct (length seq1 + length seq2) as [|k]; [exact I|].
  destruct (dtw_table seq1 seq2 _ _) as [x|],
           (dtw_table seq2 seq1 _ _) as [y|]; simpl in *; try tauto.
  rewrite H. reflexivity.
Qed.

End DtwTable.

(** ** Requests with retries *)

Module RequestFacts.
Import Blockchain.

Section Server.
Context {R : Type}.
Variable max_retries : nat.
Variable server : nat -> outcome R.

Lemma attempts_result (todo : nat) :
  forall attempt r,
    attempt + todo = max_retries ->
    (fst (attempts max_retries server todo attempt) = Some r <->
     exists k,
       attempt <= k < max_retries /\ server k = Replied r
       /\ forall i, attempt <= i < k -> retryable (server i) = true).
Proof.
  induction todo as [|todo IH]; intros attempt r Hsum.
  - simpl. split; [discriminate|]. intros (k & Hk & _). lia.
  - assert (Hagain :
      fst (let '(r0, effects) :=
             attempts max_retries server todo (S attempt) in
           (r0, Request attempt :: backoff max_retries attempt ++ effects))
      = fst (attempts max_retries server todo (S attempt))).
    { destruct (attempts max_retries server todo (S attempt)). reflexivity. }
    assert (Hretry : retryable (server attempt) = true ->
      (fst (attempts max_retries server todo (S attempt)) = Some r <->
       exists k,
         attempt <= k < max_retries /\ server k = Replied r
         /\ forall i, attempt <= i < k -> retryable (server i) = true)).
    { intros Hre. rewrite (IH (S attempt) r) by lia. split.
      - intros (k & Hk & Hrep & Hall). exists k.
        split; [lia|]. split; [exact Hrep|].
        intros i Hi. destruct (Nat.eq_dec i attempt) as [->|Hne];
          [exact Hre|apply Hall; lia].
      - intros (k & Hk & Hrep & Hall).
        destruct (Nat.eq_dec k attempt) as [->|Hne].
        + rewrite Hrep in Hre. discriminate.
        + exists k. split; [lia|]. split; [exact Hrep|].
          intros i Hi. apply Hall. lia. }
    assert (Hstop : retryable (server attempt) = false ->
      (forall r0, server attempt <> Replied r0) ->
      ~ exists k,
          attempt <= k < max_retries /\ server k = Replied r
          /\ forall i, attempt <= i < k -> retryable (server i) = true).
    { intros Hre Hno (k & Hk & Hrep & Hall).
      destruct (Nat.eq_dec k attempt) as [->|Hne].
      - exact (Hno r Hrep).
      - rewrite Hall in Hre by lia. discriminate. }
    cbn [attempts].
    destruct (server attempt) as [r0| | |code|] eqn:Hs.
    + cbn [fst]. split.
      * intros [= ->]. exists attempt. split; [lia|]. split; [exact Hs|].
        intros i Hi. lia.
      * intros (k & Hk & Hrep & Hall).
        destruct (Nat.eq_dec k attempt) as [->|Hne]; [congruence|].
        specialize (Hall attempt ltac:(lia)). rewrite Hs in Hall.
        discriminate.
    + rewrite Hagain. apply Hretry. reflexivity.
    + rewrite Hagain. apply Hretry. reflexivity.
    + destruct (500 <=? code) eqn:Hc.
      * destruct (Nat.ltb_spec attempt (max_retries - 1)) as [Hlt|Hge].
        -- rewrite Hagain. apply Hretry. exact Hc.
        -- cbn [fst]. split; [discriminate|].
           intros (k & Hk & Hrep & _).
           assert (k = attempt) as -> by lia. congruence.
      * cbn [fst]. split; [discriminate|]. intros Hex. exfalso.
        apply Hstop in Hex; [exact Hex|exact Hc|]. intros r0. discriminate.
    + cbn [fst]. split; [discriminate|]. intros Hex. exfalso.
      apply Hstop in Hex; [exact Hex|reflexivity|]. intros r0. discriminate.
Qed.

Lemma attempts_effects (todo : nat) :
  forall attempt,
    attempt + todo = max_retries ->
    exists n,
      n <= todo /\ (1 <= todo -> 1 <= n)
      /\ snd (attempts max_retries server todo attempt) = schedule n attempt.
Proof.
  induction todo as [|todo IH]; intros attempt Hsum.
  - exists 0. split; [lia|]. split; [lia|reflexivity].
  - assert (Hstop : exists n, n <= S todo /\ (1 <= S todo -> 1 <= n)
                      /\ [Request attempt] = schedule n attempt).
    { exists 1. split; [lia|]. split; [lia|reflexivity]. }
    assert (Hagain : exists n,
      n <= S todo /\ (1 <= S todo -> 1 <= n)
      /\ snd (let '(r0, effects) :=
                attempts max_retries server todo (S attempt) in
              (r0, Request attempt :: backoff max_retries attempt ++ effects))
         = schedule n attempt).
    { destruct (IH (S attempt)) as (n & Hn & Hpos & Hsched); [lia|].
      destruct (attempts max_retries server todo (S attempt)) as [r0 eff].
      cbn [snd] in *. subst eff. unfold backoff.
      destruct (Nat.ltb_spec attempt (max_retries - 1)) as [Hlt|Hge].
      - destruct n as [|n]; [lia|].
        exists (S (S n)). split; [lia|]. split; [lia|reflexivity].
      - assert (n = 0) by lia. subst n.
        exists 1. split; [lia|]. split; [lia|reflexivity]. }
    cbn [attempts].
    destruct (server attempt) as [r0| | |code|]; try exact Hagain;
      try exact Hstop.
    destruct (500 <=? code); [|exact Hstop].
    destruct (attempt <? max_retries - 1); [exact Hagain|exact Hstop].
Qed.

(** The waits of a schedule add up to a power of two. *)
Lemma slept_schedule (n : nat) :
  forall attempt,
    1 <= n -> slept (schedule n attempt) + 2 ^ attempt = 2 ^ (attempt + n - 1).
Proof.
  induction n as [|n IH]; intros attempt Hn; [lia|].
  destruct n as [|n].
  - simpl. replace (attempt + 1 - 1) with attempt by lia. reflexivity.
  - change (schedule (S (S n)) attempt)
      with (Request attempt :: Sleep (2 ^ attempt)
              :: schedule (S n) (S attempt)).
    cbn [slept fold_right]. fold (slept (schedule (S n) (S attempt))).
    specialize (IH (S attempt) ltac:(lia)).
    replace (attempt + S (S n) - 1) with (S (attempt + S n - 1)) by lia.
    replace (S attempt + S n - 1) with (attempt + S n) in IH by lia.
    replace (S (attempt + S n - 1)) with (attempt + S n) by lia.
    rewrite Nat.pow_succ_r' in IH. lia.
Qed.

(** X14.  [_make_request] returns the reply of the first attempt that
    gets one, provided every attempt before it ended in a timeout, a
    connection error or a 5xx status, and None otherwise: a 4xx status or
    any other exception ends the loop at once, and replies beyond
    [max_retries] attempts are never seen. *)
Theorem X14_request_returns_first_reply_after_retryable_errors
    (method : str) (r : R) :
  supported method = true ->
  (fst (_make_request max_retries method server) = Some r <->
   exists k,
     k < max_retries /\ server k = Replied r
     /\ forall i, i < k -> retryable (server i) = true).
Proof.
  intros Hm. unfold _make_request. unfold supported in Hm. rewrite Hm.
  rewrite (attempts_result max_retries 0 r) by lia.
  split; intros (k & Hk & Hrep & Hall); exists k;
    (split; [lia|]); (split; [exact Hrep|]); intros i Hi; apply Hall; lia.
Qed.

(** X15.  [_make_request] sends at most [max_retries] requests; it waits
    2^k seconds after attempt k and only when another request follows, so
    never after the last one; with n requests it has slept 2^(n-1) - 1
    seconds in all, hence at most 2^(max_retries-1) - 1; and a method
    other than POST or GET sends nothing. *)
Theorem X15_request_effort_is_bounded (method : str) :
  (supported method = false ->
   _make_request max_retries method server = (None, []))
  /\ exists n,
       n <= max_retries
       /\ snd (_make_request max_retries method server) = schedule n 0
       /\ slept (snd (_make_request max_retries method server))
          = 2 ^ (n - 1) - 1
       /\ slept (snd (_make_request max_retries method server))
          <= 2 ^ (max_retries - 1) - 1.
Proof.
  unfold _make_request. fold (supported method).
  split; [intros ->; reflexivity|].
  assert (Hsl : forall n, n <= max_retries ->
            slept (schedule n 0) = 2 ^ (n - 1) - 1
            /\ slept (schedule n 0) <= 2 ^ (max_retries - 1) - 1).
  { intros n Hn. destruct n as [|n]; [simpl; lia|].
    pose proof (slept_schedule (S n) 0 ltac:(lia)) as H.
    cbn [Nat.add] in H. rewrite Nat.pow_0_r in H.
    split; [lia|].
    assert (2 ^ (S n - 1) <= 2 ^ (max_retries - 1))
      by (apply Nat.pow_le_mono_r; lia).
    lia. }
  destruct (supported method).
  - destruct (attempts_effects max_retries 0) as (n & Hn & _ & Hs); [lia|].
    exists n. rewrite Hs. split; [exact Hn|]. split; [reflexivity|].
    apply Hsl, Hn.
  - exists 0. split; [lia|]. split; [reflexivity|].
    cbn [snd]. apply (Hsl 0). lia.
Qed.

End Server.
End RequestFacts.

(** ** Capturing face samples at enrollment *)

Module EnrollFacts.
Import Enroll.

Lemma faces_found_S (cam : nat -> camera) (i todo : nat) :
  faces_found cam i (S todo)
  = (if has_face (cam i) then 1 else 0) + faces_found cam (S i) todo.
Proof.
  unfold faces_found. cbn [seq filter]. unfold has_face.
  destruct (cam i) as [| |[e|]]; reflexivity.
Qed.

Lemma capture_loop_spec (cam : nat -> camera) (todo : nat) :
  forall i samples,
    (fst (capture_loop cam todo i samples) = true <->
     (forall k, i <= k < i + todo -> is_closed (cam k) = false)
     /\ 3 <= length samples + faces_found cam i todo)
    /\ length (snd (capture_loop cam todo i samples))
       <= length samples + faces_found cam i todo.
Proof.
  induction todo as [|todo IH]; intros i samples.
  - unfold faces_found. cbn [capture_loop seq filter fst snd].
    change (length (@nil nat)) with 0. rewrite !Nat.add_0_r.
    split; [|apply le_n].
    rewrite Nat.leb_le. split.
    + intros H. split; [intros k Hk; lia|exact H].
    + intros [_ H]. exact H.
  - assert (Hnext : forall samples',
      is_closed (cam i) = false ->
      length samples' + faces_found cam (S i) todo
      = length samples + faces_found cam i (S todo) ->
      (fst (capture_loop cam todo (S i) samples') = true <->
       (forall k, i <= k < i + S todo -> is_closed (cam k) = false)
       /\ 3 <= length samples + faces_found cam i (S todo))
      /\ length (snd (capture_loop cam todo (S i) samples'))
         <= length samples + faces_found cam i (S todo)).
    { intros samples' Hopen Hlen.
      destruct (IH (S i) samples') as [Hiff Hle]. rewrite Hlen in Hiff, Hle.
      split; [|exact Hle]. rewrite Hiff. split.
      - intros [Hall Hn]. split; [|exact Hn]. intros k Hk.
        destruct (Nat.eq_dec k i) as [->|Hne]; [exact Hopen|].
        apply Hall. lia.
      - intros [Hall Hn]. split; [|exact Hn]. intros k Hk. apply Hall. lia. }
    pose proof (faces_found_S cam i todo) as Hcount.
    cbn [capture_loop].
    destruct (cam i) as [| |[embedding|]] eqn:Hc; cbn [has_face] in Hcount.
    + cbn [fst snd]. split; [|lia]. split; [discriminate|].
      intros [Hall _]. specialize (Hall i ltac:(lia)).
      rewrite Hc in Hall. discriminate.
    + apply Hnext; [reflexivity|lia].
    + apply Hnext; [reflexivity|]. rewrite length_app. simpl. lia.
    + apply Hnext; [reflexivity|lia].
Qed.

(** X16.  [_capture_face_templates] looks at the camera five times and
    no more: the [i -= 1] of the loop body does not repeat a shot without
    a face.  It succeeds exactly when the camera is open at the five
    iterations and at least three of the five shots hold a face; it keeps
    at most five samples; and what the camera would show later changes
    nothing. *)
Theorem X16_face_capture_makes_five_attempts (cam : nat -> camera) :
  (fst (_capture_face_templates cam) = true <->
   (forall k, k < 5 -> is_closed (cam k) = false)
   /\ 3 <= faces_found cam 0 5)
  /\ length (snd (_capture_face_templates cam)) <= 5
  /\ forall cam',
       (forall k, k < 5 -> cam' k = cam k) ->
       _capture_face_templates cam' = _capture_face_templates cam.
Proof.
  unfold _capture_face_templates.
  destruct (capture_loop_spec cam 5 0 []) as [Hiff Hle].
  cbn [length Nat.add] in Hiff, Hle.
  split; [|split].
  - rewrite Hiff. split; intros [Hall Hn]; (split; [|exact Hn]);
      intros k Hk; apply Hall; lia.
  - assert (faces_found cam 0 5 <= 5).
    { unfold faces_found.
      apply (Nat.le_trans _ _ _ (filter_length_le _ _)).
      rewrite length_seq. apply le_n. }
    lia.
  - intros cam' Hsame. cbn [capture_loop].
    rewrite !Hsame by lia. reflexivity.
Qed.

End EnrollFacts.

(** ** Similarity of the spoken text *)

Module SpeechFacts.
Import Speech.

Lemma mem_In (w : str) (l : list str) : mem w l = true <-> In w l.
Proof.
  unfold mem. destruct (in_dec word_eq_dec w l); split; auto; discriminate.
Qed.

Lemma NoDup_words (s : str) : NoDup (words s).
Proof.
  apply NoDup_nodup.
Qed.

Lemma In_intersection (a b : list str) (w : str) :
  In w (intersection a b) <-> In w a /\ In w b.
Proof.
  unfold intersection. rewrite filter_In, mem_In. reflexivity.
Qed.

Lemma length_intersection_comm (a b : list str) :
  NoDup a -> NoDup b ->
  length (intersection a b) = length (intersection b a).
Proof.
  intros Ha Hb. apply Nat.le_antisymm; apply NoDup_incl_length;
    try (apply NoDup_filter; assumption);
    intros w Hw; apply In_intersection in Hw; apply In_intersection; tauto.
Qed.

Lemma length_union (a b : list str) :
  length (union a b) + length (intersection b a) = length a + length b.
Proof.
  unfold union, intersection. rewrite length_app.
  pose proof (filter_length (fun w => mem w a) b) as H. lia.
Qed.

Lemma length_union_comm (a b : list str) :
  NoDup a -> NoDup b -> length (union a b) = length (union b a).
Proof.
  intros Ha Hb. pose proof (length_union a b) as H1.
  pose proof (length_union b a) as H2.
  pose proof (length_intersection_comm a b Ha Hb). lia.
Qed.

Lemma filter_all (A : Type) (f : A -> bool) (l : list A) :
  (forall x, In x l -> f x = true) -> filter f l = l.
Proof.
  induction l as [|x l IH]; intros H; [reflexivity|]. simpl.
  rewrite (H x (or_introl eq_refl)), IH; [reflexivity|].
  intros y Hy. apply H. right. exact Hy.
Qed.

Lemma filter_none (A : Type) (f : A -> bool) (l : list A) :
  (forall x, In x l -> f x = false) -> filter f l = [].
Proof.
  induction l as [|x l IH]; intros H; [reflexivity|]. simpl.
  rewrite (H x (or_introl eq_refl)). apply IH.
  intros y Hy. apply H. right. exact Hy.
Qed.

Lemma intersection_self (a : list str) : intersection a a = a.
Proof.
  unfold intersection. apply filter_all.
  intros w Hw. apply mem_In, Hw.
Qed.

Lemma union_self (a : list str) : union a a = a.
Proof.
  unfold union. rewrite filter_none, app_nil_r; [reflexivity|].
  intros w Hw. apply mem_In in Hw. rewrite Hw. reflexivity.
Qed.

Lemma intersection_nil_r (a : list str) : intersection a [] = [].
Proof.
  unfold intersection. apply filter_none. intros x _. reflexivity.
Qed.

Lemma ratio_bounds (a b : nat) :
  a <= b -> 1 <= b -> (0 <= ratio a b <= 1)%Q.
Proof.
  intros Hab Hb. unfold ratio.
  assert (Hpos : (0 < inject_Z (Z.of_nat b))%Q).
  { change 0%Q with (inject_Z 0). rewrite <- Zlt_Qlt. lia. }
  split.
  - apply Qle_shift_div_l; [exact Hpos|]. rewrite Qmult_0_l.
    change 0%Q with (inject_Z 0). rewrite <- Zle_Qle. lia.
  - apply Qle_shift_div_r; [exact Hpos|]. rewrite Qmult_1_l.
    rewrite <- Zle_Qle. lia.
Qed.

Lemma ratio_zero (b : nat) : (ratio 0 b == 0)%Q.
Proof.
  unfold ratio. simpl. unfold Qdiv. apply Qmult_0_l.
Qed.

Lemma ratio_one (a : nat) : 1 <= a -> (ratio a a == 1)%Q.
Proof.
  intros Ha. unfold ratio, Qdiv. apply Qmult_inv_r.
  intros H. unfold Qeq in H. simpl in H. lia.
Qed.

(** The value of the function on two texts that are not empty. *)
Lemma similarity_of_words (c d : ascii) (e r : str) :
  calculate_text_similarity (c :: e) (d :: r)
  = match words (c :: e) with
    | [] => 0%Q
    | _ :: _ =>
        ratio (length (intersection (words (c :: e)) (words (d :: r))))
          (length (union (words (c :: e)) (words (d :: r))))
    end.
Proof.
  unfold calculate_text_similarity. fold (words (c :: e)) (words (d :: r)).
  destruct (words (c :: e)) as [|w ws]; reflexivity.
Qed.

(** X17.  The similarity of two texts is between 0 and 1; it is 0 when
    the expected text holds no word, and 1 for a text with at least one
    word compared with itself. *)
Theorem X17_text_similarity_is_between_0_and_1 (expected recognized : str) :
  (0 <= calculate_text_similarity expected recognized <= 1)%Q
  /\ (words expected = [] ->
      calculate_text_similarity expected recognized = 0%Q)
  /\ (words expected <> [] ->
      (calculate_text_similarity expected expected == 1)%Q).
Proof.
  assert (H01 : (0 <= 0 <= 1)%Q) by (split; [apply Qle_refl|discriminate]).
  destruct expected as [|c e].
  { split; [exact H01|]. split; [reflexivity|]. intros H. contradiction H.
    reflexivity. }
  split; [|split].
  - destruct recognized as [|d r]; [exact H01|].
    rewrite similarity_of_words.
    destruct (words (c :: e)) as [|w ws] eqn:Hw; [exact H01|].
    apply ratio_bounds.
    + unfold intersection, union. rewrite length_app.
      pose proof (filter_length_le (fun w0 => mem w0 (words (d :: r)))
                    (w :: ws)). lia.
    + unfold union. rewrite length_app. simpl. lia.
  - intros Hw. destruct recognized as [|d r]; [reflexivity|].
    rewrite similarity_of_words, Hw. reflexivity.
  - intros Hw. rewrite similarity_of_words.
    destruct (words (c :: e)) as [|w ws] eqn:Hw'; [contradiction Hw;
      reflexivity|].
    rewrite intersection_self, union_self. apply ratio_one. simpl. lia.
Qed.

(** X18.  The similarity is symmetric: exchanging the expected and the
    recognized text gives the same number. *)
Theorem X18_text_similarity_is_symmetric (expected recognized : str) :
  (calculate_text_similarity expected recognized
   == calculate_text_similarity recognized expected)%Q.
Proof.
  destruct expected as [|c e], recognized as [|d r]; try reflexivity.
  rewrite !similarity_of_words.
  pose proof (NoDup_words (c :: e)) as He.
  pose proof (NoDup_words (d :: r)) as Hr.
  destruct (words (c :: e)) as [|w ws] eqn:Hw,
           (words (d :: r)) as [|v vs] eqn:Hv.
  - reflexivity.
  - rewrite intersection_nil_r. symmetry. apply ratio_zero.
  - rewrite intersection_nil_r. apply ratio_zero.
  - rewrite (length_intersection_comm (w :: ws) (v :: vs) He Hr).
    rewrite (length_union_comm (w :: ws) (v :: vs) He Hr). reflexivity.
Qed.

End SpeechFacts.

(** ** The table of enrolled users *)

Module DatabaseFacts.
Import CryptoUtils Database.

Lemma same_user_refl (u : str) : same_user u u = true.
Proof.
  unfold same_user. destruct (list_eq_dec ascii_dec u u); congruence.
Qed.

Lemma same_user_neq (u v : str) : u <> v -> same_user u v = false.
Proof.
  unfold same_user. destruct (list_eq_dec ascii_dec u v); congruence.
Qed.

Lemma same_user_eq (u v : str) : same_user u v = true -> u = v.
Proof.
  unfold same_user. destruct (list_eq_dec ascii_dec u v); congruence.
Qed.

Lemma find_app_none (A : Type) (f : A -> bool) (l l' : list A) :
  find f l = None -> find f (l ++ l') = find f l'.
Proof.
  induction l as [|x l IH]; simpl; [reflexivity|].
  destruct (f x); [discriminate|exact IH].
Qed.

Lemma find_app_some (A : Type) (f : A -> bool) (l l' : list A) (x : A) :
  find f l = Some x -> find f (l ++ l') = Some x.
Proof.
  induction l as [|y l IH]; simpl; [discriminate|].
  destruct (f y); [trivial|exact IH].
Qed.

Lemma fetchone_replaced (user_id : str) (row : user_row) (t : users) :
  fetchone user_id (insert_or_replace user_id row t) = Some row.
Proof.
  unfold fetchone, insert_or_replace. rewrite find_app_none.
  - simpl. rewrite same_user_refl. reflexivity.
  - induction t as [|[k v] t IH]; simpl; [reflexivity|].
    destruct (same_user k user_id) eqn:Hk; simpl; [exact IH|].
    rewrite Hk. exact IH.
Qed.

Lemma fetchone_other (user_id other : str) (row : user_row) (t : users) :
  other <> user_id ->
  fetchone other (insert_or_replace user_id row t) = fetchone other t.
Proof.
  intros Hne. unfold fetchone, insert_or_replace.
  induction t as [|[k v] t IH]; simpl.
  - rewrite (same_user_neq user_id other); [reflexivity|congruence].
  - destruct (same_user k user_id) eqn:Hk; simpl.
    + apply same_user_eq in Hk. subst k.
      rewrite (same_user_neq user_id other); [exact IH|congruence].
    + destruct (same_user k other); [reflexivity|exact IH].
Qed.

Lemma rows_of_replaced (user_id : str) (row : user_row) (t : users) :
  filter (fun kv => same_user (fst kv) user_id)
    (insert_or_replace user_id row t) = [(user_id, row)].
Proof.
  unfold insert_or_replace. rewrite filter_app. simpl.
  rewrite same_user_refl.
  replace (filter _ (filter _ t)) with (@nil (str * user_row));
    [reflexivity|].
  induction t as [|[k v] t IH]; simpl; [reflexivity|].
  destruct (same_user k user_id) eqn:Hk; simpl; [exact IH|].
  rewrite Hk. exact IH.
Qed.

Section Keys.
Context {C : Crypto}.
Variables private_key_t public_key_t : Type.
Variable private_bytes : private_key_t -> str.
Variable public_bytes : public_key_t -> str.
Variable load_pem_private_key : str -> option private_key_t.
Variable load_pem_public_key : str -> option public_key_t.

(** X19.  Enrolment round trip: after [save_user_template] for a user,
    whatever the table held before (an earlier row of that user
    included), [get_user_data] for that user returns the two hashes that
    the save returned, which are the hashes of the two templates, and the
    two keys, provided the PEM text of each key loads back to the key;
    the table then holds exactly one row for that user, and the answer
    for every other user is what it was before. *)
Theorem X19_saved_template_is_read_back
    (user_id : str) (face_embedding voice_embedding : bytes)
    (private_key : private_key_t) (public_key : public_key_t) (t : users) :
  load_pem_private_key (private_bytes private_key) = Some private_key ->
  load_pem_public_key (public_bytes public_key) = Some public_key ->
  let get := get_user_data load_pem_private_key load_pem_public_key in
  let (t', hashes) :=
    save_user_template private_bytes public_bytes user_id face_embedding
      voice_embedding private_key public_key t in
  hashes = (generate_hash face_embedding, generate_hash voice_embedding)
  /\ get user_id t'
     = Some (Some (mkData (fst hashes) (snd hashes) private_key public_key))
  /\ length (filter (fun kv => same_user (fst kv) user_id) t') = 1
  /\ forall other, other <> user_id -> get other t' = get other t.
Proof.
  intros Hsk Hpk get. unfold get, save_user_template.
  split; [reflexivity|]. split; [|split].
  - unfold get_user_data. rewrite fetchone_replaced. cbn [private_pem
      public_pem face_hash voice_hash fst snd]. rewrite Hsk, Hpk. reflexivity.
  - rewrite rows_of_replaced. reflexivity.
  - intros other Hne. unfold get_user_data.
    rewrite fetchone_other by exact Hne. reflexivity.
Qed.

End Keys.

End DatabaseFacts.

(** ** Instances of the further properties *)

Module MoreChecks.
Import CryptoUtils Verify LipSyncProcessor Samples.
Import Liveness Dtw Blockchain Enroll Speech Database MoreSamples.
#[local] Existing Instance Reference.crypto.

(** The three-digit address [abc]. *)
Lemma X2_witness :
  exists ab,
    fromhex (repeat "0"%char 37 ++ lit "abc") = Some ab /\ length ab = 20.
Proof.
  assert (Hx : hex_string (lit "abc") = true) by reflexivity.
  assert (L : length (lit "abc") <= 40) by (simpl; lia).
  destruct (SignerFacts.X2_short_address_is_left_padded
              (C := Reference.crypto) false (lit "abc")
              (hexdigest Reference.example_digest) Hx L)
    as (ab & H1 & H2 & _).
  exists ab. split; [exact H1|exact H2].
Defined.

(** The first sample of the signature test: a 20-byte address and a
    hash of 34 bytes, hashed as a buffer of 66 bytes. *)
Lemma X3_witness :
  exists hb,
    fromhex test_face_hash = Some hb
    /\ message_hash (C := Reference.crypto)
         (normalize_hash (lit "0x" ++ test_face_hash))
         (normalize_address (hexbytes_hex Reference.example_wallet))
       = Some (keccak (repeat x00 12 ++ Reference.example_wallet ++ hb))
    /\ length (repeat x00 12 ++ Reference.example_wallet ++ hb) = 66.
Proof.
  assert (Ha : hex_string (hexdigest Reference.example_wallet) = true)
    by reflexivity.
  assert (Hh : hex_string test_face_hash = true) by reflexivity.
  assert (La : length (hexdigest Reference.example_wallet) = 2 * 20)
    by reflexivity.
  assert (Lh : length test_face_hash = 2 * 34) by reflexivity.
  assert (Hj : 20 <= 20) by lia.
  assert (Hk : 32 <= 34) by lia.
  destruct (SignerFacts.X3_long_inputs_are_hashed_whole
              (C := Reference.crypto) true true
              (hexdigest Reference.example_wallet) test_face_hash 20 34
              Ha Hh La Lh Hj Hk)
    as (ab & hb & H1 & H2 & _ & _ & H5 & H6 & _).
  rewrite fromhex_hexdigest in H1. injection H1 as <-.
  exists hb. split; [exact H2|]. split; [exact H5|exact H6].
Defined.

(** A key written without [0x]. *)
Lemma X4_witness :
  length (sign_data (C := Reference.crypto) (KeyStr (lit "47e179ec"))
            (lit "hash") (lit "wallet")) = 49.
Proof.
  assert (H : startswith (lit "47e179ec") (lit "0x") = false)
    by reflexivity.
  exact (proj1 (proj2 (SignerFacts.X4_sign_data_unprefixed_key_is_legacy_tag
                         (C := Reference.crypto) (lit "47e179ec")
                         (lit "hash") (lit "wallet") H))).
Defined.

(** The run in which the smile is seen and a recording is made. *)
Lemma X6_witness :
  exists s',
    _verification_workflow (S := Reference.signals 1) alice answered started
    = Some s'
    /\ is_verifying s' = false.
Proof.
  destruct (_verification_workflow (S := Reference.signals 1) alice answered
              started) as [s'|] eqn:H.
  - exists s'. split; [reflexivity|].
    exact (proj1 (WorkflowFacts.X6_no_run_of_the_workflow_reaches_pass
                    (S := Reference.signals 1) alice answered started s' H)).
  - vm_compute in H. discriminate H.
Defined.

(** A turn of 20 degrees to the right under the prompt to turn left. *)
Lemma X7_witness :
  let s := set_current_challenge (Some (challenge_text head_left)) started in
  let f := mkFrame (3 # 10) (3 # 10) (5 # 10) 20 0 [] in
  face_liveness (verification_results (analyze_liveness 0 f s)) = true
  /\ analyze_liveness 0 (mkFrame (3 # 10) (3 # 10) (5 # 10) (- (20)) 0 []) s
     = analyze_liveness 0 f s.
Proof.
  intros s f.
  destruct (LivenessFacts.X7_head_challenges_ignore_direction
              head_left 0 f s (or_introl eq_refl) eq_refl) as (H1 & H2).
  split; [rewrite H1; reflexivity|exact H2].
Defined.

(** The smile challenge that nobody answers. *)
Lemma X8_witness :
  exists s' ok rest,
    _perform_face_liveness_challenge smile 0
      [Poll 0; Video 1 neutral; Poll 4; Poll 8] started
    = Some (s', ok, rest).
Proof.
  assert (H : existsb (is_late_poll 0)
                [Poll 0; Video 1 neutral; Poll 4; Poll 8] = true)
    by reflexivity.
  exact (proj2 (LivenessFacts.X8_face_stage_fails_only_at_deadline
                  smile 0 [Poll 0; Video 1 neutral; Poll 4; Poll 8] started)
           H).
Defined.


(** The last cell of a 2 x 2 table. *)
Lemma X10_witness :
  dtw_table [1%Q; 2%Q] [3%Q; 5%Q] 2 2
  = cell_add (step_cost [1%Q; 2%Q] [3%Q; 5%Q] 2 2)
      (min3 (dtw_table [1%Q; 2%Q] [3%Q; 5%Q] 1 2)
         (dtw_table [1%Q; 2%Q] [3%Q; 5%Q] 2 1)
         (dtw_table [1%Q; 2%Q] [3%Q; 5%Q] 1 1)).
Proof.
  assert (H : 1 <= 2 <= length [1%Q; 2%Q]) by (simpl; lia).
  assert (H' : 1 <= 2 <= length [3%Q; 5%Q]) by (simpl; lia).
  exact (proj2 (proj2 (proj2 (proj2
           (DtwTable.X10_dtw_table_holds_the_recurrence
              [1%Q; 2%Q] [3%Q; 5%Q])))) 2 2 H H').
Defined.

Lemma X11_witness :
  dtw_alignment [1%Q] [] = Some Inf /\ dtw_alignment [] [1%Q] = Some Inf.
Proof.
  assert (H : [1%Q] <> []) by discriminate.
  exact (proj2 (DtwTable.X11_dtw_of_empty_sequences [1%Q]) H).
Defined.

Lemma X12_witness :
  exists c, dtw_alignment [1%Q; 2%Q] [3%Q] = Some c /\ nonneg_cell c.
Proof.
  assert (H : [1%Q; 2%Q] <> []) by discriminate.
  assert (H' : [3%Q] <> []) by discriminate.
  exact (DtwTable.X12_dtw_is_a_number_and_not_negative
           [1%Q; 2%Q] [3%Q] H H').
Defined.

Lemma X14_witness :
  fst (_make_request 3 (lit "post") flaky) = Some 7.
Proof.
  assert (H : supported (lit "post") = true) by reflexivity.
  apply (proj2 (RequestFacts.X14_request_returns_first_reply_after_retryable_errors
                  3 flaky (lit "post") 7 H)).
  exists 2. split; [lia|]. split; [reflexivity|].
  intros [|[|i]] Hi; [reflexivity|reflexivity|lia].
Defined.

Lemma X15_witness :
  _make_request 3 (lit "PUT") flaky = (None, []).
Proof.
  assert (H : supported (lit "PUT") = false) by reflexivity.
  exact (proj1 (RequestFacts.X15_request_effort_is_bounded
                  3 flaky (lit "PUT")) H).
Defined.

Lemma X16_witness :
  fst (_capture_face_templates every_second_shot) = true.
Proof.
  apply (proj2 (proj1 (EnrollFacts.X16_face_capture_makes_five_attempts
                         every_second_shot))).
  split.
  - intros k _. unfold every_second_shot. destruct (Nat.even k); reflexivity.
  - vm_compute. lia.
Defined.

Lemma X17_witness :
  (calculate_text_similarity (lit "Hello  world") (lit "Hello  world") == 1)%Q.
Proof.
  apply (proj2 (proj2 (SpeechFacts.X17_text_similarity_is_between_0_and_1
                         (lit "Hello  world") (lit "Hello  world")))).
  intros H. vm_compute in H. discriminate H.
Defined.

(** A second enrolment of [alice]; the keys are their own PEM text. *)
Lemma X19_witness :
  let t := [(lit "alice", mkUser (lit "f") (lit "v") (lit "sk") (lit "pk"));
            (lit "bob", mkUser (lit "g") (lit "w") (lit "sk'") (lit "pk'"))] in
  let t' :=
    fst (save_user_template (C := Reference.crypto) (fun k : str => k)
           (fun k : str => k) (lit "alice") [x01] [x02] (lit "SK") (lit "PK")
           t) in
  get_user_data Some Some (lit "alice") t'
  = Some (Some (mkData (generate_hash (C := Reference.crypto) [x01])
                  (generate_hash (C := Reference.crypto) [x02])
                  (lit "SK") (lit "PK")))
  /\ get_user_data Some Some (lit "bob") t'
     = get_user_data Some Some (lit "bob") t.
Proof.
  intros t t'.
  pose proof (DatabaseFacts.X19_saved_template_is_read_back
                (C := Reference.crypto) str str (fun k : str => k)
                (fun k : str => k) Some Some (lit "alice") [x01] [x02]
                (lit "SK") (lit "PK") t eq_refl eq_refl) as H.
  cbv zeta in H. unfold save_user_template in H.
  destruct H as (_ & Hget & _ & Hother).
  split; [exact Hget|]. apply Hother. discriminate.
Defined.

End MoreChecks.
